(** * Server monitor bot: a shallow embedding of [server_monitor_bot.py]

    The development follows the source file top to bottom:
    - [PyStr]: the few operations on Python [str] values the program uses
      ([*], [strip], [replace], and the three [re.search] patterns);
    - [Uptime]: [get_server_uptime], with the external processes as an
      explicit environment and the commands run as a trace;
    - [Formatter]: the embeds built by [create_stats_embed] and by the
      command handlers;
    - [ProgressBar]: [create_progress_bar], computed as the source does on
      IEEE 754 binary64 floats;
    - [Publisher]: one run of the [update_stats] task as a function on the
      global [monitor_message_id], with the Discord calls as a trace. *)

From Stdlib Require Import ZArith QArith Qround List Bool String Ascii Lia.
From Stdlib Require Import SpecFloat.
Import ListNotations.

Set Implicit Arguments.

(* ================================================================== *)
(** ** Python strings *)

Module PyStr.

(** A Python [str] is a sequence of Unicode code points. *)
Definition str := list N.

(** An ASCII literal of the source as a [str]. *)
Definition py (s : string) : str := map N_of_ascii (list_ascii_of_string s).

Definition NEWLINE : N := 10%N.
Definition COMMA : N := 44%N.

(** [c * n] for a one-character string [c]: [n <= 0] gives the empty
    string. *)
Definition str_repeat (c : N) (n : Z) : str := repeat c (Z.to_nat n).

(** [len(s)], as a Python integer. *)
Definition len (s : str) : Z := Z.of_nat (List.length s).

(** [a == b] *)
Definition str_eqb (a b : str) : bool :=
  if list_eq_dec N.eq_dec a b then true else false.

(** [s.startswith(p)], and the rest of [s] after the prefix [p]. *)
Fixpoint starts_with (p s : str) : bool :=
  match p, s with
  | [], _ => true
  | a :: p', b :: s' => N.eqb a b && starts_with p' s'
  | _ :: _, [] => false
  end.

Fixpoint strip_prefix (p s : str) : option str :=
  match p, s with
  | [], _ => Some s
  | a :: p', b :: s' => if N.eqb a b then strip_prefix p' s' else None
  | _ :: _, [] => None
  end.

(** [c.isspace()]: the code points CPython's [str.strip()] removes. *)
Definition isspace (c : N) : bool :=
  ((9 <=? c) && (c <=? 13) || (28 <=? c) && (c <=? 32)
   || (c =? 133) || (c =? 160) || (c =? 5760)
   || (8192 <=? c) && (c <=? 8202)
   || (c =? 8232) || (c =? 8233) || (c =? 8239) || (c =? 8287)
   || (c =? 12288))%N.

Fixpoint lstrip (s : str) : str :=
  match s with
  | [] => []
  | c :: s' => if isspace c then lstrip s' else s
  end.

Definition rstrip (s : str) : str := rev (lstrip (rev s)).

(** [s.strip()] *)
Definition strip (s : str) : str := rstrip (lstrip s).

(** [s.replace(pat, '')] for a non-empty [pat]: the occurrences of [pat]
    are removed from left to right, without overlap.  [skip] counts the
    characters of the occurrence being removed that are still ahead. *)
Fixpoint remove_from (pat : str) (skip : nat) (s : str) : str :=
  match s with
  | [] => []
  | c :: s' =>
      match skip with
      | S k => remove_from pat k s'
      | O => if starts_with pat s
             then remove_from pat (Nat.pred (List.length pat)) s'
             else c :: remove_from pat O s'
      end
  end.

Definition replace_with_empty (pat s : str) : str := remove_from pat O s.

(** *** The regular expressions of the source

    A pattern is given by its matcher at one position: [m s] is group 1 of
    the match of the pattern at the start of [s], if it matches there.
    [re_search] is [re.search(...)] followed by [.group(1)]: the leftmost
    position where the pattern matches. *)

(** [.] matches every character but a newline. *)
Definition dot (c : N) : bool := negb (c =? NEWLINE)%N.

Fixpoint take_while (f : N -> bool) (s : str) : str :=
  match s with
  | [] => []
  | c :: s' => if f c then c :: take_while f s' else []
  end.

(** [(.+)] at the end of a pattern: greedy, the longest run of [.]. *)
Definition dot_plus_greedy (s : str) : option str :=
  match take_while dot s with
  | [] => None
  | g => Some g
  end.

(** [(.+?)] followed by one character of the class [stop]: after the first
    character, the group ends at the first [stop]; a character that is
    neither [stop] nor [.] ends the attempt. *)
Fixpoint lazy_rest (stop : N -> bool) (s : str) : option str :=
  match s with
  | [] => None
  | d :: s' =>
      if stop d then Some []
      else if dot d then option_map (cons d) (lazy_rest stop s')
      else None
  end.

Definition dot_plus_lazy (stop : N -> bool) (s : str) : option str :=
  match s with
  | [] => None
  | c :: s' => if dot c then option_map (cons c) (lazy_rest stop s') else None
  end.

Definition then_match (p : str) (k : str -> option str) (s : str)
  : option str :=
  match strip_prefix p s with
  | Some rest => k rest
  | None => None
  end.

(** [r'Uptime: (.+)'] *)
Definition re_Uptime : str -> option str :=
  then_match (py "Uptime: ") dot_plus_greedy.

(** [r'up (.+?)(,|\n)'] *)
Definition comma_or_newline (c : N) : bool := ((c =? COMMA) || (c =? NEWLINE))%N.
Definition re_up_comma_or_newline : str -> option str :=
  then_match (py "up ") (dot_plus_lazy comma_or_newline).

(** [r'up (.+?),'] *)
Definition comma (c : N) : bool := (c =? COMMA)%N.
Definition re_up_comma : str -> option str :=
  then_match (py "up ") (dot_plus_lazy comma).

Fixpoint re_search (m : str -> option str) (s : str) : option str :=
  match m s with
  | Some g => Some g
  | None =>
      match s with
      | [] => None
      | _ :: s' => re_search m s'
      end
  end.

(** The pattern [m] matches at no position of [pre ++ s] that lies inside
    [pre]: a match of [re_search m (pre ++ s)], if any, starts in [s]. *)
Fixpoint no_match_before (m : str -> option str) (pre s : str) : bool :=
  match pre with
  | [] => true
  | _ :: pre' =>
      match m (pre ++ s) with
      | Some _ => false
      | None => no_match_before m pre' s
      end
  end.

(** [p in s] *)
Fixpoint contains (p s : str) : bool :=
  starts_with p s ||
  match s with
  | [] => false
  | _ :: s' => contains p s'
  end.

End PyStr.

(* ================================================================== *)
(** ** [get_server_uptime] *)

Module Uptime.
Import PyStr.

(** The exceptions [subprocess.run] can raise here.  [SubprocessError]
    stands for the class and its subclasses; [FileNotFoundError] and
    [PermissionError] are the two subclasses of [OSError] told apart from
    the rest of it; all five are subclasses of [Exception]. *)
Inductive exn :=
| FileNotFoundError
| SubprocessError
| PermissionError
| OSError
| UnicodeDecodeError.

(** [except (subprocess.SubprocessError, FileNotFoundError)] *)
Definition is_SubprocessError_or_FileNotFoundError (e : exn) : bool :=
  match e with
  | SubprocessError | FileNotFoundError => true
  | _ => false
  end.

(** What [subprocess.run(argv, capture_output=True, text=True)] does: it
    completes with some standard output, or raises. *)
Inductive run_result :=
| Completed (stdout : str)
| Raises (e : exn).

(** The host the function runs on. *)
Record Host := {
  subprocess_run : list string -> run_result;
  platform_system : str
}.

(** The three command lines of the source. *)
Definition NEOFETCH : list string := ["neofetch"; "--stdout"]%string.
Definition UPTIME_P : list string := ["uptime"; "-p"]%string.
Definition UPTIME : list string := ["uptime"]%string.

Inductive event :=
| Run (argv : list string)
| PrintErrorRunningNeofetch (e : exn)
| PrintErrorGettingUptime (e : exn).

Inductive outcome :=
| Return (v : str)
| Raise (e : exn).

Definition UNKNOWN_FORMAT : str :=
  py "Unknown (neofetch available but format not recognized)".
Definition UNKNOWN_UNAVAILABLE : str :=
  py "Unknown (neofetch not available)".

(** The inner [try] of the handler: [Some v] when it returns [v], [None]
    when control reaches the statement after it.  Its [except Exception]
    catches every member of [exn]. *)
Definition platform_fallback (h : Host) : list event * option str :=
  if str_eqb (platform_system h) (py "Linux") then
    match subprocess_run h UPTIME_P with
    | Completed stdout =>
        ([Run UPTIME_P],
         Some (replace_with_empty (py "up ") (strip stdout)))
    | Raises e =>
        ([Run UPTIME_P; PrintErrorGettingUptime e], None)
    end
  else if str_eqb (platform_system h) (py "Darwin") then
    match subprocess_run h UPTIME with
    | Completed stdout =>
        match re_search re_up_comma stdout with
        | Some g => ([Run UPTIME], Some (strip g))
        | None => ([Run UPTIME], None)
        end
    | Raises e =>
        ([Run UPTIME; PrintErrorGettingUptime e], None)
    end
  else ([], None).

Definition get_server_uptime (h : Host) : list event * outcome :=
  match subprocess_run h NEOFETCH with
  | Completed output =>
      match re_search re_Uptime output with
      | Some g => ([Run NEOFETCH], Return (strip g))
      | None =>
          match re_search re_up_comma_or_newline output with
          | Some g => ([Run NEOFETCH], Return (strip g))
          | None => ([Run NEOFETCH], Return UNKNOWN_FORMAT)
          end
      end
  | Raises e =>
      if is_SubprocessError_or_FileNotFoundError e then
        let (evs, r) := platform_fallback h in
        (Run NEOFETCH :: PrintErrorRunningNeofetch e :: evs,
         match r with
         | Some v => Return v
         | None => Return UNKNOWN_UNAVAILABLE
         end)
      else ([Run NEOFETCH], Raise e)
  end.

(** The inner [try] gives no value: the platform is neither Linux nor
    macOS, or its command raises, or (macOS) its output has no match. *)
Definition fallback_yields_nothing (h : Host) : Prop :=
  (platform_system h = py "Linux"
   /\ exists e, subprocess_run h UPTIME_P = Raises e)
  \/ (platform_system h = py "Darwin"
      /\ ((exists e, subprocess_run h UPTIME = Raises e)
          \/ exists stdout, subprocess_run h UPTIME = Completed stdout
                            /\ re_search re_up_comma stdout = None))
  \/ (platform_system h <> py "Linux" /\ platform_system h <> py "Darwin").

(** A host given by what each of the three commands does on it. *)
Definition argv_eqb (a b : list string) : bool :=
  if list_eq_dec string_dec a b then true else false.

Definition host (system : str) (neofetch uptime_p uptime : run_result) : Host :=
  {| subprocess_run := fun argv =>
       if argv_eqb argv NEOFETCH then neofetch
       else if argv_eqb argv UPTIME_P then uptime_p
       else if argv_eqb argv UPTIME then uptime
       else Raises FileNotFoundError;
     platform_system := system |}.

(** The commands a run started, in order. *)
Definition commands (evs : list event) : list (list string) :=
  flat_map (fun ev => match ev with Run argv => [argv] | _ => [] end) evs.

End Uptime.

(* ================================================================== *)
(** ** The embeds *)

Module Formatter.
Import PyStr.

Record Field := {
  name : string;
  value : str;
  inline : bool
}.

(** [discord.Embed]: the title (without the emoji the source puts before
    it), the accent colour and the fields added with [add_field], in
    order. *)
Record Embed := {
  title : string;
  color : Z;
  fields : list Field
}.

Definition set_color (c : Z) (e : Embed) : Embed :=
  {| title := title e; color := c; fields := fields e |}.

(** The fields of an embed are rendered from the readings of [psutil]; each
    function below takes them as [fs], already rendered. *)
Section Embeds.
Variable fs : list Field.

(** [create_stats_embed()] *)
Definition create_stats_embed : Embed :=
  {| title := "Server Monitor";
     color := 0x1E90FF;  (* DodgerBlue *)
     fields := fs |}.

(** [!stats] *)
Definition stats : Embed :=
  let embed := create_stats_embed in
  set_color 0x32CD32 embed.  (* LimeGreen *)

(** [!uptime] *)
Definition uptime : Embed :=
  {| title := "Uptime Information";
     color := 0xFFA500;  (* Orange *)
     fields := fs |}.

(** [!cpu] *)
Definition cpu : Embed :=
  {| title := "CPU Information";
     color := 0x1E90FF;  (* DodgerBlue *)
     fields := fs |}.

(** [!memory] *)
Definition memory : Embed :=
  {| title := "Memory Information";
     color := 0xFF69B4;  (* HotPink *)
     fields := fs |}.

(** [!disk] *)
Definition disk : Embed :=
  {| title := "Disk Information";
     color := 0xFFD700;  (* Gold *)
     fields := fs |}.

(** [!network] *)
Definition network : Embed :=
  {| title := "Network Information";
     color := 0x8A2BE2;  (* BlueViolet *)
     fields := fs |}.

End Embeds.

(** The modes of the formatter. *)
Inductive mode := Full | Cpu | Memory | Disk | Network | UptimeOnly.

(** The embed a command sends as its reply, by mode. *)
Definition command_embed (m : mode) (fs : list Field) : Embed :=
  match m with
  | Full => stats fs
  | Cpu => cpu fs
  | Memory => memory fs
  | Disk => disk fs
  | Network => network fs
  | UptimeOnly => uptime fs
  end.

(** The embed of a mode as the formatting code builds it: in full mode it
    is [create_stats_embed], which the periodic task publishes as it is and
    which [!stats] recolours before sending. *)
Definition formatter_embed (m : mode) (fs : list Field) : Embed :=
  match m with
  | Full => create_stats_embed fs
  | _ => command_embed m fs
  end.

End Formatter.

(* ================================================================== *)
(** ** The progress bar *)

Module ProgressBar.
Import PyStr.

(** U+2588 FULL BLOCK and U+2591 LIGHT SHADE, the two glyphs of the bar. *)
Definition FULL_BLOCK : N := 9608%N.
Definition LIGHT_SHADE : N := 9617%N.

Definition DEFAULT_LENGTH : Z := 10.

(** *** The function of the source, in binary64 arithmetic

    The percentages the program passes are those of [psutil]: Python
    floats, that is IEEE 754 binary64 numbers.  [length * percent / 100]
    is then a float product of [float(length)] and [percent], rounded to
    nearest even, divided by [100.0], rounded again; [int] truncates the
    quotient.  The floats are those of [SpecFloat], with the operations of
    that library. *)

Definition prec : Z := 53.
Definition emax : Z := 1024.

(** The exceptions of the float operations. *)
Inductive exn : Type :=
| OverflowError
| ValueError.

Inductive result (A : Type) : Type :=
| Ok (a : A)
| Raise (e : exn).
Arguments Ok {A} a.
Arguments Raise {A} e.

(** The float nearest to the integer [n], ties to even; an infinity when
    [n] is beyond the largest float. *)
Definition nearest_float (n : Z) : spec_float :=
  binary_normalize prec emax n 0 false.

(** The conversion of the [int] operand of [*] to a float: it raises
    [OverflowError] for an integer too large for a float. *)
Definition float_of_int (n : Z) : result spec_float :=
  match nearest_float n with
  | S754_infinity _ => Raise OverflowError
  | x => Ok x
  end.

(** [int(x)] for a float [x]: truncation toward zero; it raises
    [OverflowError] for an infinity and [ValueError] for a NaN. *)
Definition int_of_float (x : spec_float) : result Z :=
  match x with
  | S754_zero _ => Ok 0%Z
  | S754_finite s m e =>
      let v := match e with
               | Z0 => Zpos m
               | Zpos p => (Zpos m * 2 ^ Zpos p)%Z
               | Zneg p => (Zpos m / 2 ^ Zpos p)%Z
               end in
      Ok (if s then (- v)%Z else v)
  | S754_infinity _ => Raise OverflowError
  | S754_nan => Raise ValueError
  end.

(** [int(length * percent / 100)] *)
Definition filled_length (percent : spec_float) (length : Z) : result Z :=
  match float_of_int length with
  | Ok l =>
      int_of_float
        (SFdiv prec emax (SFmul prec emax l percent) (nearest_float 100))
  | Raise e => Raise e
  end.

(** [create_progress_bar(percent, length=10)] *)
Definition create_progress_bar (percent : spec_float) (length : Z)
  : result str :=
  match filled_length percent length with
  | Ok filled_length =>
      let bar := str_repeat FULL_BLOCK filled_length
                 ++ str_repeat LIGHT_SHADE (length - filled_length) in
      Ok bar
  | Raise e => Raise e
  end.

Definition is_finite (x : spec_float) : bool :=
  match x with
  | S754_zero _ | S754_finite _ _ _ => true
  | S754_infinity _ | S754_nan => false
  end.

(** The rational number a finite float denotes. *)
Definition value (x : spec_float) : Q :=
  match x with
  | S754_finite s m e =>
      let v := match e with
               | Z0 => inject_Z (Zpos m)
               | Zpos p => inject_Z (Zpos m * 2 ^ Zpos p)
               | Zneg p => Zpos m # (2 ^ p)
               end in
      if s then - v else v
  | _ => 0
  end.

(** The float nearest to [k / 10]: Python's [round(x, 1)] gives such a
    float. *)
Definition one_decimal (k : Z) : spec_float :=
  SFdiv prec emax (nearest_float k) (nearest_float 10).

(** The float [100.0] has the mantissa [100 * 2^46]. *)
Definition HUNDRED : positive := 7036874417766400.

(** A float that is zero or positive, whose exponent is not positive, and
    whose value lies between the integers [B] and [U]. *)
Definition in_range (B U : Z) (r : spec_float) : Prop :=
  match r with
  | S754_zero s => s = false /\ (B <= 0 <= U)%Z
  | S754_finite s m e =>
      s = false /\ (e <= 0)%Z
      /\ (B * 2 ^ (- e) <= Zpos m <= U * 2 ^ (- e))%Z
  | S754_infinity _ | S754_nan => False
  end.

(** *** The formula of the specification, in exact arithmetic

    [int(x)] on a rational number, and the bar with
    [length * percent / 100] computed without rounding.  This is what the
    formula [floor(length * percent / 100)] of the specification
    describes, not what the source computes: it is defined to be compared
    with [create_progress_bar]. *)
Definition py_int (x : Q) : Z := Z.quot (Qnum x) (Zpos (Qden x)).

Definition create_progress_bar_exact (percent : Q) (length : Z) : str :=
  let filled_length := py_int (inject_Z length * percent / 100) in
  let bar := str_repeat FULL_BLOCK filled_length
             ++ str_repeat LIGHT_SHADE (length - filled_length) in
  bar.

(** The bar of the percentage [k / 10] is the bar of the exact formula,
    both at [k / 10] and at the number the float denotes. *)
Definition binary64_agrees (k : Z) : bool :=
  match create_progress_bar (one_decimal k) DEFAULT_LENGTH with
  | Ok bar =>
      str_eqb bar (create_progress_bar_exact (inject_Z k / 10) DEFAULT_LENGTH)
      && str_eqb bar
           (create_progress_bar_exact (value (one_decimal k)) DEFAULT_LENGTH)
  | Raise _ => false
  end.

End ProgressBar.

(* ================================================================== *)
(** ** The periodic task [update_stats] *)

Module Publisher.
Import Formatter.

(** The exceptions of the Discord calls.  [NotFound] and [Forbidden] are
    subclasses of [discord.HTTPException]; [HTTPException] stands for the
    rest of that class, and [OtherError] for an exception outside it. *)
Inductive exn :=
| NotFound
| Forbidden
| HTTPException
| OtherError.

Definition is_NotFound (e : exn) : bool :=
  match e with NotFound => true | _ => false end.
Definition is_Forbidden (e : exn) : bool :=
  match e with Forbidden => true | _ => false end.
Definition is_HTTPException (e : exn) : bool :=
  match e with NotFound | Forbidden | HTTPException => true | OtherError => false end.

Inductive result (A : Type) :=
| Ok (a : A)
| Err (e : exn).
Arguments Ok {A} a.
Arguments Err {A} e.

(** A channel and a message, by their ids. *)
Record Channel := { channel_id : Z }.
Record Message := { id : Z }.

(** What the outside does during one run of the task: each of the calls
    below is made at most once in a run. *)
Record World := {
  (** [bot.get_channel(cid)] *)
  get_channel : Z -> option Channel;
  (** [create_stats_embed()] *)
  stats_embed : result Embed;
  (** [channel.fetch_message(mid)]: the message of id [mid] is found, or the
      call fails *)
  fetch_message : Channel -> Z -> result unit;
  (** [message.edit(embed=embed)] *)
  edit : Message -> Embed -> result unit;
  (** [channel.send(embed=embed)]: the message sent *)
  send : Channel -> Embed -> result Message
}.

Inductive event :=
| FetchMessage (cid mid : Z)
| EditMessage (mid : Z) (embed : Embed)
| SendMessage (cid : Z) (embed : Embed)
| PrintChannelIdNotSet
| PrintChannelNotFound
| PrintMissingPermissionsEdit
| PrintErrorEditing (e : exn)
| PrintMissingPermissionsSend
| PrintErrorSending (e : exn).

(** How a run ends: it returns, or an exception leaves the function. *)
Inductive completion :=
| Returned
| Raised (e : exn).

(** The global [monitor_message_id]: [None] or an integer.  [if
    monitor_message_id:] is true for an integer other than 0. *)
Definition truthy (monitor_message_id : option Z) : bool :=
  match monitor_message_id with
  | None => false
  | Some n => negb (n =? 0)%Z
  end.

(** The value of the global after the run, the calls made, and how the run
    ended. *)
Record Run := {
  final_id : option Z;
  events : list event;
  how : completion
}.

Definition the_id (monitor_message_id : option Z) : Z :=
  match monitor_message_id with Some n => n | None => 0%Z end.

Section Task.
Variable MONITOR_CHANNEL_ID : Z.
Variable w : World.

(** The [except NotFound] handler of the edit branch: a failure of its
    [send] is not handled by the clauses next to it. *)
Definition send_replacement (channel : Channel) (embed : Embed)
    (monitor_message_id : option Z) (before : list event) : Run :=
  match send w channel embed with
  | Ok message =>
      {| final_id := Some (id message);
         events := before ++ [SendMessage (channel_id channel) embed];
         how := Returned |}
  | Err e =>
      {| final_id := monitor_message_id;
         events := before ++ [SendMessage (channel_id channel) embed];
         how := Raised e |}
  end.

(** The handlers of the edit branch, for the exception [e] of its [try]
    body. *)
Definition handle_edit_error (channel : Channel) (embed : Embed)
    (monitor_message_id : option Z) (before : list event) (e : exn) : Run :=
  if is_NotFound e then
    send_replacement channel embed monitor_message_id before
  else if is_Forbidden e then
    {| final_id := monitor_message_id;
       events := before ++ [PrintMissingPermissionsEdit];
       how := Returned |}
  else if is_HTTPException e then
    {| final_id := monitor_message_id;
       events := before ++ [PrintErrorEditing e];
       how := Returned |}
  else
    {| final_id := monitor_message_id; events := before; how := Raised e |}.

Definition update_stats (monitor_message_id : option Z) : Run :=
  if (MONITOR_CHANNEL_ID =? 0)%Z then
    {| final_id := monitor_message_id;
       events := [PrintChannelIdNotSet];
       how := Returned |}
  else
    match get_channel w MONITOR_CHANNEL_ID with
    | None =>
        {| final_id := monitor_message_id;
           events := [PrintChannelNotFound];
           how := Returned |}
    | Some channel =>
        match stats_embed w with
        | Err e =>
            {| final_id := monitor_message_id; events := []; how := Raised e |}
        | Ok embed =>
            if truthy monitor_message_id then
              let mid := the_id monitor_message_id in
              let fetched := [FetchMessage (channel_id channel) mid] in
              match fetch_message w channel mid with
              | Err e =>
                  handle_edit_error channel embed monitor_message_id fetched e
              | Ok _ =>
                  let message := {| id := mid |} in
                  let edited := fetched ++ [EditMessage (id message) embed] in
                  match edit w message embed with
                  | Err e =>
                      handle_edit_error channel embed monitor_message_id edited e
                  | Ok _ =>
                      {| final_id := monitor_message_id;
                         events := edited;
                         how := Returned |}
                  end
              end
            else
              match send w channel embed with
              | Ok message =>
                  {| final_id := Some (id message);
                     events := [SendMessage (channel_id channel) embed];
                     how := Returned |}
              | Err e =>
                  if is_Forbidden e then
                    {| final_id := monitor_message_id;
                       events := [SendMessage (channel_id channel) embed;
                                  PrintMissingPermissionsSend];
                       how := Returned |}
                  else if is_HTTPException e then
                    {| final_id := monitor_message_id;
                       events := [SendMessage (channel_id channel) embed;
                                  PrintErrorSending e];
                       how := Returned |}
                  else
                    {| final_id := monitor_message_id;
                       events := [SendMessage (channel_id channel) embed];
                       how := Raised e |}
              end
        end
    end.

End Task.

(** Consecutive runs of the task, up to the first one an exception leaves,
    that one included: the global is carried from one run to the next and
    each run meets its own [World].  What [tasks.loop] does after an
    exception is not part of [ticks]; [Runs.runs] goes on after it. *)
Fixpoint ticks (cid : Z) (ws : list World) (monitor_message_id : option Z)
  : list Run :=
  match ws with
  | [] => []
  | w :: ws' =>
      let r := update_stats cid w monitor_message_id in
      match how r with
      | Returned => r :: ticks cid ws' (final_id r)
      | Raised _ => [r]
      end
  end.

(** The calls of a run that reach the chat platform. *)
Definition is_send (ev : event) : bool :=
  match ev with SendMessage _ _ => true | _ => false end.
Definition is_edit (ev : event) : bool :=
  match ev with EditMessage _ _ => true | _ => false end.
Definition sends (r : Run) : nat := List.length (filter is_send (events r)).
Definition edits (r : Run) : nat := List.length (filter is_edit (events r)).

(** The ids of the messages a run asked to edit, in order. *)
Definition edited_ids (r : Run) : list Z :=
  flat_map (fun ev => match ev with EditMessage mid _ => [mid] | _ => [] end)
           (events r).

(** In the world [w] the channel resolves, the embed is built and a send
    gives the message [m]. *)
Definition send_succeeds (cid : Z) (w : World) (m : Message) : Prop :=
  exists channel embed,
    get_channel w cid = Some channel
    /\ stats_embed w = Ok embed
    /\ send w channel embed = Ok m.

(** In the world [w] the channel resolves, the embed is built and the send
    fails with [e]. *)
Definition send_fails (cid : Z) (w : World) (e : exn) : Prop :=
  exists channel embed,
    get_channel w cid = Some channel
    /\ stats_embed w = Ok embed
    /\ send w channel embed = Err e.

(** In the world [w] the channel resolves, the embed is built, and the
    message [mid] is fetched and edited without error. *)
Definition edit_succeeds (cid : Z) (w : World) (mid : Z) : Prop :=
  exists channel embed,
    get_channel w cid = Some channel
    /\ stats_embed w = Ok embed
    /\ fetch_message w channel mid = Ok tt
    /\ edit w {| id := mid |} embed = Ok tt.

(** In the world [w] the channel resolves, the embed is built, and the
    fetch of the message [mid], or else its edit, fails with [e]. *)
Definition edit_fails (cid : Z) (w : World) (mid : Z) (e : exn) : Prop :=
  exists channel embed,
    get_channel w cid = Some channel
    /\ stats_embed w = Ok embed
    /\ (fetch_message w channel mid = Err e
        \/ (fetch_message w channel mid = Ok tt
            /\ edit w {| id := mid |} embed = Err e)).

(** A world in which every call has the given result. *)
Definition world (channel : option Channel) (embed : result Embed)
    (fetched edited : result unit) (sent : result Message) : World :=
  {| get_channel := fun _ => channel;
     stats_embed := embed;
     fetch_message := fun _ _ => fetched;
     edit := fun _ _ => edited;
     send := fun _ _ => sent |}.

(** A channel and an embed for the runs on concrete worlds. *)
Definition sample_channel : Channel := {| channel_id := 42 |}.
Definition sample_embed : Embed := create_stats_embed [].

(** The states of the publisher as the specification names them, and the
    state a value of the global stands for. *)
Inductive state :=
| NoActiveMessage
| HasActiveMessage (mid : Z).

Definition state_of (monitor_message_id : option Z) : state :=
  if truthy monitor_message_id
  then HasActiveMessage (the_id monitor_message_id)
  else NoActiveMessage.

End Publisher.

(* ================================================================== *)
(** ** The temperature block of [create_stats_embed] *)

Module Temperatures.
Import PyStr Formatter.

(** One reading of a sensor: its label, which may be empty, and the value
    of [entry.current] as the f-string prints it. *)
Record Entry := {
  label : str;
  current : str
}.

Definition DEGREE_SIGN : N := 176%N.
Definition LETTER_C : N := 67%N.

(** [entry.label or name] *)
Definition label_or (entry : Entry) (sensor : str) : str :=
  match label entry with
  | [] => sensor
  | _ :: _ => label entry
  end.

(** One line of [temp_text]. *)
Definition temp_line (sensor : str) (entry : Entry) : str :=
  label_or entry sensor ++ py ": " ++ current entry
  ++ [DEGREE_SIGN; LETTER_C; NEWLINE].

(** [temp_text] after the two loops over [temps.items()]. *)
Definition temp_text (temps : list (str * list Entry)) : str :=
  flat_map (fun item => flat_map (temp_line (fst item)) (snd item)) temps.

(** The fields the block adds to the embed.  [temps] is what
    [psutil.sensors_temperatures()] gives, the sensors in the order of the
    dictionary, or [None] when the call raises: the bare [except] of the
    block catches whatever it raises. *)
Definition temperature_fields (temps : option (list (str * list Entry)))
  : list Field :=
  match temps with
  | None => []
  | Some [] => []
  | Some ((_ :: _) as items) =>
      match temp_text items with
      | [] => []
      | (_ :: _) as text =>
          [{| name := "Temperatures"; value := strip text; inline := true |}]
      end
  end.

(** The number of readings over all sensors. *)
Definition readings (temps : list (str * list Entry)) : nat :=
  List.length (flat_map snd temps).

End Temperatures.

(* ================================================================== *)
(** ** From the uptime resolver to the periodic task *)

Module Compose.
Import PyStr Formatter.

(** [create_stats_embed()] as a run of the task sees it, when the calls of
    [psutil] succeed: the resolver is called, and an exception that leaves
    it leaves [create_stats_embed] (it is no [discord.HTTPException]);
    otherwise the embed is built, [fields_of] giving its fields from the
    uptime. *)
Definition stats_embed_of (h : Uptime.Host) (fields_of : str -> list Field)
  : Publisher.result Embed :=
  match snd (Uptime.get_server_uptime h) with
  | Uptime.Return server_uptime =>
      Publisher.Ok (create_stats_embed (fields_of server_uptime))
  | Uptime.Raise _ => Publisher.Err Publisher.OtherError
  end.

End Compose.

(* ================================================================== *)
(** ** Shapes of strings *)

Module Shape.
Import PyStr.

(** No newline in [s]. *)
Definition single_line (s : str) : bool := forallb dot s.

(** [s] neither starts nor ends with white space: [s.strip() == s]. *)
Definition first_is_space (s : str) : bool :=
  match s with
  | [] => false
  | c :: _ => isspace c
  end.

Definition trimmed (s : str) : bool :=
  negb (first_is_space s) && negb (first_is_space (rev s)).

(** The characters [(.+?)] may take after its first one, before a
    character of the class [stop]. *)
Definition lazy_char (stop : N -> bool) (d : N) : bool :=
  negb (stop d) && dot d.

(** The texts [(.+?)] can capture before a character of [stop]: a first
    character that is no newline, then characters that are neither a
    newline nor in [stop]. *)
Definition lazy_group (stop : N -> bool) (text : str) : bool :=
  match text with
  | [] => false
  | a :: t => dot a && forallb (lazy_char stop) t
  end.

(** The end of a line: nothing, or a newline and what follows it. *)
Definition line_end (rest : str) : bool :=
  match rest with
  | [] => true
  | c :: _ => (c =? NEWLINE)%N
  end.

(** The texts [(.+)] can capture: not empty and without newline. *)
Definition greedy_group (text : str) : bool :=
  match text with
  | [] => false
  | _ :: _ => single_line text
  end.

End Shape.

(* ================================================================== *)
(** ** Sequences of runs *)

Module Runs.
Import Publisher.

(** The ids of the messages a run asked to fetch, in order. *)
Definition fetched_ids (r : Run) : list Z :=
  flat_map (fun ev => match ev with FetchMessage _ mid => [mid] | _ => [] end)
           (events r).

Definition is_fetch (ev : event) : bool :=
  match ev with FetchMessage _ _ => true | _ => false end.
Definition fetches (r : Run) : nat :=
  List.length (filter is_fetch (events r)).

(** The fetches and the edits of a run, and all its calls to the chat
    platform, in the order they are made. *)
Definition is_touch (ev : event) : bool := is_fetch ev || is_edit ev.
Definition touches (r : Run) : list event := filter is_touch (events r).
Definition is_call (ev : event) : bool :=
  is_fetch ev || is_edit ev || is_send ev.
Definition calls (r : Run) : list event := filter is_call (events r).

(** Consecutive runs of the task, whether they return or raise: each run
    starts from the global the run before it left (no other code assigns
    it) and meets its own [World].  [tasks.loop] calls the task again after
    a run that returned and after an exception of the classes it retries
    ([OSError], [aiohttp.ClientError], [asyncio.TimeoutError], ...), and
    stops at any other exception: the runs that take place are the first
    [n] of [runs], for some [n]. *)
Fixpoint runs (cid : Z) (ws : list World) (monitor_message_id : option Z)
  : list Run :=
  match ws with
  | [] => []
  | w :: ws' =>
      let r := update_stats cid w monitor_message_id in
      r :: runs cid ws' (final_id r)
  end.

(** In a sequence of runs that starts with the global at
    [monitor_message_id], every run fetches and edits only the message
    whose id the global held when the run began. *)
Fixpoint edits_follow (monitor_message_id : option Z) (rs : list Run) : Prop :=
  match rs with
  | [] => True
  | r :: rs' =>
      (forall mid, In mid (fetched_ids r ++ edited_ids r) ->
                   monitor_message_id = Some mid)
      /\ edits_follow (final_id r) rs'
  end.

End Runs.

(* ================================================================== *)
(** * Properties *)

Import PyStr.

(** ** The progress bar *)

(** *** The roundings of [create_progress_bar]

    The product [length * percent] and its quotient by [100.0] are
    followed through the roundings of [SpecFloat]: a number between two
    integers [B <= U < 2^prec] is rounded to a float between them, since
    these integers are floats. *)

Section Binary64Rounding.
Import ProgressBar.
Open Scope Z_scope.

Lemma digits2_size (p : positive) : digits2_pos p = Pos.size p.
Proof. induction p; cbn; congruence. Qed.

Lemma digits2_bounds (p : positive) :
  2 ^ (Zpos (digits2_pos p) - 1) <= Zpos p < 2 ^ Zpos (digits2_pos p).
Proof.
  rewrite digits2_size. split.
  - pose proof (Pos.size_le p) as H.
    assert (H' : 2 ^ Zpos (Pos.size p) <= 2 * Zpos p).
    { change 2 with (Zpos 2) at 1. rewrite <- Pos2Z.inj_pow.
      change (2 * Zpos p) with (Zpos p~0). apply Pos2Z.pos_le_pos, H. }
    replace (Zpos (Pos.size p)) with (Z.succ (Zpos (Pos.size p) - 1)) in H' by lia.
    rewrite Z.pow_succ_r in H' by lia. lia.
  - pose proof (Pos.size_gt p) as H.
    change 2 with (Zpos 2). rewrite <- Pos2Z.inj_pow. apply Pos2Z.pos_lt_pos, H.
Qed.

(** A number below [2^k] has at most [k] digits. *)
Lemma Zdigits2_le (m k : Z) : 0 <= m < 2 ^ k -> 0 <= k -> Zdigits2 m <= k.
Proof.
  intros [H0 Hk] Hk0. destruct m as [| p | p]; cbn; [exact Hk0 | | lia].
  destruct (digits2_bounds p) as [Hlo _].
  assert (H : 2 ^ (Zpos (digits2_pos p) - 1) < 2 ^ k) by lia.
  apply Z.pow_lt_mono_r_iff in H; lia.
Qed.

Lemma shr_m_record_of_loc (m : Z) (l : location) :
  shr_m (shr_record_of_loc m l) = m.
Proof. destruct l as [| []]; reflexivity. Qed.

Lemma shr_1_m (mrs : shr_record) :
  0 <= shr_m mrs -> shr_m (shr_1 mrs) = shr_m mrs / 2.
Proof.
  destruct mrs as [m r s]. cbn [shr_m]. intros Hm.
  destruct m as [| [p | p |] |]; cbn [shr_1 shr_m].
  - reflexivity.
  - apply Z.div_unique with 1; lia.
  - apply Z.div_unique with 0; lia.
  - reflexivity.
  - lia.
Qed.

Lemma pow2_xO (p : positive) : 2 ^ Zpos p~0 = 2 ^ Zpos p * 2 ^ Zpos p.
Proof. rewrite <- Z.pow_add_r by lia. f_equal. lia. Qed.

Lemma pow2_xI (p : positive) :
  2 ^ Zpos p~1 = 2 * (2 ^ Zpos p * 2 ^ Zpos p).
Proof.
  rewrite <- Z.pow_add_r, <- Z.pow_succ_r by lia. f_equal. lia.
Qed.

Lemma shr_iter_m (p : positive) (mrs : shr_record) :
  0 <= shr_m mrs ->
  shr_m (iter_pos shr_1 p mrs) = shr_m mrs / 2 ^ Zpos p.
Proof.
  revert mrs. induction p as [p IH | p IH |]; intros mrs Hm; cbn [iter_pos].
  - assert (Hp : 0 < 2 ^ Zpos p) by (apply Z.pow_pos_nonneg; lia).
    assert (H1 : 0 <= shr_m (shr_1 mrs))
      by (rewrite shr_1_m by exact Hm; apply Z.div_pos; lia).
    assert (H2 : 0 <= shr_m (iter_pos shr_1 p (shr_1 mrs)))
      by (rewrite IH by exact H1; apply Z.div_pos; lia).
    rewrite IH by exact H2. rewrite IH by exact H1. rewrite shr_1_m by exact Hm.
    rewrite pow2_xI, !Z.div_div by lia. reflexivity.
  - assert (Hp : 0 < 2 ^ Zpos p) by (apply Z.pow_pos_nonneg; lia).
    assert (H2 : 0 <= shr_m (iter_pos shr_1 p mrs))
      by (rewrite IH by exact Hm; apply Z.div_pos; lia).
    rewrite IH by exact H2. rewrite IH by exact Hm.
    rewrite pow2_xO, Z.div_div by lia. reflexivity.
  - rewrite shr_1_m by exact Hm. reflexivity.
Qed.

Lemma shr_1_exact (k : Z) :
  0 <= k ->
  shr_1 (Build_shr_record (2 * k) false false) = Build_shr_record k false false.
Proof. intros Hk. destruct k as [| p | p]; [reflexivity | reflexivity | lia]. Qed.

Lemma shr_iter_exact (p : positive) (k : Z) :
  0 <= k ->
  iter_pos shr_1 p (Build_shr_record (k * 2 ^ Zpos p) false false)
  = Build_shr_record k false false.
Proof.
  revert k. induction p as [p IH | p IH |]; intros k Hk; cbn [iter_pos].
  - assert (Hp : 0 < 2 ^ Zpos p) by (apply Z.pow_pos_nonneg; lia).
    replace (k * 2 ^ Zpos p~1) with (2 * (k * 2 ^ Zpos p * 2 ^ Zpos p))
      by (rewrite pow2_xI; ring).
    rewrite shr_1_exact by nia. rewrite IH by nia. apply IH, Hk.
  - assert (Hp : 0 < 2 ^ Zpos p) by (apply Z.pow_pos_nonneg; lia).
    replace (k * 2 ^ Zpos p~0) with (k * 2 ^ Zpos p * 2 ^ Zpos p)
      by (rewrite pow2_xO; ring).
    rewrite IH by nia. apply IH, Hk.
  - change (2 ^ 1) with 2. replace (k * 2) with (2 * k) by ring.
    apply shr_1_exact, Hk.
Qed.

(** A shift: the mantissa is divided by [2^N], and an exact number that
    is a multiple of [2^N] stays exact. *)
Lemma shr_spec (m : Z) (l : location) (e n : Z) :
  0 <= m ->
  let N := Z.max 0 n in
  let r := shr (shr_record_of_loc m l) e n in
  shr_m (fst r) = m / 2 ^ N
  /\ snd r = e + N
  /\ (l = loc_Exact -> (exists k, m = k * 2 ^ N) ->
      loc_of_shr_record (fst r) = loc_Exact).
Proof.
  intros Hm N r. subst N r. destruct n as [| p | p]; cbn [shr fst snd Z.max].
  - rewrite shr_m_record_of_loc, Z.div_1_r. repeat split; [lia |].
    intros -> _. reflexivity.
  - replace (Z.max 0 (Zpos p)) with (Zpos p) by lia.
    rewrite shr_iter_m by (rewrite shr_m_record_of_loc; exact Hm).
    rewrite shr_m_record_of_loc. repeat split.
    intros -> [k Hk]. subst m. cbn [shr_record_of_loc].
    assert (Hk0 : 0 <= k).
    { assert (0 < 2 ^ Zpos p) by (apply Z.pow_pos_nonneg; lia). nia. }
    rewrite shr_iter_exact by exact Hk0. reflexivity.
  - replace (Z.max 0 (Zneg p)) with 0 by lia.
    rewrite shr_m_record_of_loc, Z.div_1_r. repeat split; [lia |].
    intros -> _. reflexivity.
Qed.

Lemma round_nearest_even_bounds (m : Z) (l : location) :
  m <= round_nearest_even m l <= m + 1
  /\ (l = loc_Exact -> round_nearest_even m l = m).
Proof.
  split; [| intros ->; reflexivity].
  destruct l as [| []]; cbn; try lia. destruct (Z.even m); lia.
Qed.

Lemma fexp_eq (e : Z) : fexp prec emax e = Z.max (e - 53) (-1074).
Proof. reflexivity. Qed.

Lemma pow2_pos (n : Z) : 0 <= n -> 0 < 2 ^ n.
Proof. intros H. apply Z.pow_pos_nonneg; lia. Qed.

Lemma pow2_split (a b : Z) : 0 <= a -> 0 <= b -> 2 ^ (a + b) = 2 ^ a * 2 ^ b.
Proof. intros. apply Z.pow_add_r; assumption. Qed.

(** One shift of [binary_round_aux], for a number in units of [2^e] with
    [e <= 0] that lies between the integers [B] and [U]. *)
Lemma shr_fexp_bounds (m : Z) (l : location) (e B U : Z) :
  0 <= m -> e <= 0 -> 0 <= B -> U < 2 ^ prec ->
  B * 2 ^ (- e) <= m <= U * 2 ^ (- e) ->
  let r := shr_fexp prec emax m e l in
  let m' := shr_m (fst r) in
  let e' := snd r in
  e <= e' <= 0
  /\ 0 <= m'
  /\ B * 2 ^ (- e') <= m' <= U * 2 ^ (- e')
  /\ (m' = U * 2 ^ (- e') -> m = U * 2 ^ (- e))
  /\ (l = loc_Exact -> m = U * 2 ^ (- e) ->
      loc_of_shr_record (fst r) = loc_Exact).
Proof.
  intros Hm He HB HU [Hlo Hhi] r m' e'. subst r m' e'.
  unfold shr_fexp. set (n := fexp prec emax (Zdigits2 m + e) - e).
  destruct (@shr_spec m l e n Hm) as (Hsm & Hse & Hex).
  set (N := Z.max 0 n) in *.
  assert (HN0 : 0 <= N) by lia.
  assert (Hpe : 0 < 2 ^ (- e)) by (apply pow2_pos; lia).
  assert (Hd : Zdigits2 m <= prec - e).
  { apply Zdigits2_le; [| unfold prec; lia]. split; [exact Hm |].
    apply Z.le_lt_trans with (U * 2 ^ (- e)); [exact Hhi |].
    replace (prec - e) with (prec + - e) by lia.
    rewrite pow2_split by (unfold prec; lia).
    apply Z.mul_lt_mono_pos_r; assumption. }
  assert (HNe : e + N <= 0).
  { subst N n. rewrite fexp_eq. unfold prec in Hd. lia. }
  rewrite Hsm, Hse.
  assert (Hsplit : 2 ^ (- e) = 2 ^ (- (e + N)) * 2 ^ N).
  { rewrite <- pow2_split by lia. f_equal. lia. }
  assert (HpN : 0 < 2 ^ N) by (apply pow2_pos; lia).
  assert (HpeN : 0 < 2 ^ (- (e + N))) by (apply pow2_pos; lia).
  split; [lia |]. split; [apply Z.div_pos; lia |].
  assert (Hlo' : B * 2 ^ (- (e + N)) <= m / 2 ^ N).
  { apply Z.div_le_lower_bound; [exact HpN |]. rewrite Hsplit in Hlo. lia. }
  assert (Hhi' : m / 2 ^ N <= U * 2 ^ (- (e + N))).
  { apply Z.div_le_upper_bound; [exact HpN |]. rewrite Hsplit in Hhi. lia. }
  split; [split; assumption |].
  assert (Heq : m / 2 ^ N = U * 2 ^ (- (e + N)) -> m = U * 2 ^ (- e)).
  { intros E. pose proof (Z.mul_div_le m (2 ^ N) HpN) as Hle.
    rewrite E in Hle. rewrite Hsplit in *. lia. }
  split; [exact Heq |].
  intros Hl E. apply Hex; [exact Hl |].
  exists (U * 2 ^ (- (e + N))). rewrite E, Hsplit. ring.
Qed.

(** The rounding of a number [v] given in units of [2^ex], [ex <= 0], by
    its integer part [mx] and a location: if [B <= v <= U] for integers
    [0 <= B] and [U < 2^prec], the rounded number lies between [B] and [U]
    as well. *)
Lemma binary_round_aux_bounds (mx ex : Z) (lx : location) (B U : Z) :
  0 <= mx -> ex <= 0 -> 0 <= B -> B <= U -> U < 2 ^ prec ->
  B * 2 ^ (- ex) <= mx ->
  (lx = loc_Exact -> mx <= U * 2 ^ (- ex)) ->
  (lx <> loc_Exact -> mx + 1 <= U * 2 ^ (- ex)) ->
  in_range B U (binary_round_aux prec emax false mx ex lx).
Proof.
  intros Hmx Hex HB HBU HU Hlo Hexact Hinexact.
  assert (Hhi : mx <= U * 2 ^ (- ex)).
  { destruct lx as [| c]; [apply Hexact; reflexivity |].
    assert (mx + 1 <= U * 2 ^ (- ex)) by (apply Hinexact; discriminate). lia. }
  unfold binary_round_aux.
  pose proof (@shr_fexp_bounds mx lx ex B U Hmx Hex HB HU (conj Hlo Hhi)) as H1.
  destruct (shr_fexp prec emax mx ex lx) as [mrs' e'] eqn:E1.
  cbn [fst snd] in H1. destruct H1 as (He' & Hm'0 & [Hlo' Hhi'] & Heq' & Hloc').
  set (m'' := round_nearest_even (shr_m mrs') (loc_of_shr_record mrs')).
  destruct (round_nearest_even_bounds (shr_m mrs') (loc_of_shr_record mrs'))
    as [[Hr1 Hr2] Hr3]. fold m'' in Hr1, Hr2, Hr3.
  assert (Hhi'' : m'' <= U * 2 ^ (- e')).
  { destruct (Z.eq_dec (shr_m mrs') (U * 2 ^ (- e'))) as [E | E]; [| lia].
    pose proof (Heq' E) as Emx.
    assert (Hl : lx = loc_Exact).
    { destruct lx as [| c]; [reflexivity |].
      assert (mx + 1 <= U * 2 ^ (- ex)) by (apply Hinexact; discriminate). lia. }
    rewrite (Hr3 (Hloc' Hl Emx)). lia. }
  assert (H2 := @shr_fexp_bounds m'' loc_Exact e' B U ltac:(lia) ltac:(lia) HB HU
                  ltac:(lia)).
  destruct (shr_fexp prec emax m'' e' loc_Exact) as [mrs'' e''] eqn:E2.
  cbn [fst snd] in H2. destruct H2 as (He'' & Hm''0 & [Hlo2 Hhi2] & _ & _).
  destruct (shr_m mrs'') as [| m | m] eqn:Em; cbn [in_range].
  - assert (0 < 2 ^ (- e'')) by (apply pow2_pos; lia). split; [reflexivity |]. nia.
  - replace (e'' <=? emax - prec) with true
      by (symmetry; apply Z.leb_le; unfold emax, prec; lia).
    cbn [in_range]. repeat split; lia.
  - lia.
Qed.

Lemma iter_xO (d m : positive) :
  Zpos (Pos.iter xO m d) = Zpos m * 2 ^ Zpos d.
Proof.
  induction d as [| d IH] using Pos.peano_ind.
  - cbn [Pos.iter]. change (2 ^ 1) with 2. lia.
  - rewrite Pos.iter_succ, Pos2Z.inj_xO, IH, Pos2Z.inj_succ, Z.pow_succ_r by lia.
    ring.
Qed.

(** An integer below [2^prec] is its own float. *)
Lemma nearest_float_exact (L : Z) :
  0 < L < 2 ^ prec ->
  exists m e,
    nearest_float L = S754_finite false m e /\ e <= 0 /\ Zpos m = L * 2 ^ (- e).
Proof.
  intros [HL0 HL]. destruct L as [| l | l]; try lia.
  unfold nearest_float, binary_normalize, binary_round.
  assert (Hd : Zpos (digits2_pos l) <= prec)
    by (apply (@Zdigits2_le (Zpos l) prec); [lia | unfold prec; lia]).
  set (e' := fexp prec emax (Zpos (digits2_pos l) + 0)).
  assert (He' : e' <= 0) by (subst e'; rewrite fexp_eq; unfold prec in Hd; lia).
  assert (Hal : exists mz ez,
             shl_align l 0 e' = (mz, ez) /\ ez <= 0
             /\ Zpos mz = Zpos l * 2 ^ (- ez)).
  { unfold shl_align. destruct (e' - 0) as [| d | d] eqn:E.
    - exists l, 0. repeat split; lia.
    - lia.
    - exists (Pos.iter xO l d), e'. repeat split; [exact He' |].
      rewrite iter_xO. f_equal. f_equal. lia. }
  destruct Hal as (mz & ez & -> & Hez & Hmz).
  assert (Hr := @binary_round_aux_bounds (Zpos mz) ez loc_Exact (Zpos l) (Zpos l)
                  ltac:(lia) Hez ltac:(lia) ltac:(lia) HL ltac:(lia)
                  ltac:(intros _; lia) ltac:(intros H; contradiction H; reflexivity)).
  destruct (binary_round_aux prec emax false (Zpos mz) ez loc_Exact)
    as [s | s | | s m e]; cbn [in_range] in Hr; try contradiction.
  - lia.
  - destruct Hr as (-> & He & Hm). exists m, e. repeat split; [exact He | lia].
Qed.

(** The product of the float of the integer [L] and a positive float
    [my * 2^ey], when [B <= L * my * 2^ey <= U]. *)
Lemma SFmul_bounds (L : Z) (mx : positive) (ex : Z) (my : positive) (ey : Z)
    (B U : Z) :
  ex <= 0 -> ey <= 0 -> 0 <= L ->
  Zpos mx = L * 2 ^ (- ex) ->
  0 <= B -> B <= U -> U < 2 ^ prec ->
  B * 2 ^ (- ey) <= L * Zpos my <= U * 2 ^ (- ey) ->
  in_range B U
    (SFmul prec emax (S754_finite false mx ex) (S754_finite false my ey)).
Proof.
  intros Hex Hey HL Hmx HB HBU HU [Hlo Hhi]. cbn [SFmul xorb].
  assert (Hp : 2 ^ (- (ex + ey)) = 2 ^ (- ex) * 2 ^ (- ey))
    by (rewrite <- pow2_split by lia; f_equal; lia).
  assert (Hpx : 0 < 2 ^ (- ex)) by (apply pow2_pos; lia).
  apply binary_round_aux_bounds; try lia.
  - rewrite Pos2Z.inj_mul, Hmx, Hp. nia.
  - intros _. rewrite Pos2Z.inj_mul, Hmx, Hp. nia.
  - intros H. contradiction H. reflexivity.
Qed.

Lemma float_100 : nearest_float 100 = S754_finite false HUNDRED (-46).
Proof. reflexivity. Qed.

Lemma new_location_exact (n r : Z) :
  new_location n r = loc_Exact <-> r = 0.
Proof.
  unfold new_location, new_location_even, new_location_odd.
  destruct (Z.even n); destruct (Z.eqb_spec r 0); split;
    try discriminate; try reflexivity; try contradiction; auto.
Qed.

(** The quotient by [100.0] of a float between [100 * k1] and
    [100 * k2]. *)
Lemma SFdiv_100_bounds (m1 : positive) (e1 k1 k2 : Z) :
  0 <= k1 -> k1 <= k2 -> k2 < 2 ^ prec ->
  in_range (100 * k1) (100 * k2) (S754_finite false m1 e1) ->
  in_range k1 k2
    (SFdiv prec emax (S754_finite false m1 e1) (S754_finite false HUNDRED (-46))).
Proof.
  intros Hk1 Hk12 Hk2 (_ & He1 & Hlo & Hhi).
  cbn [SFdiv xorb]. unfold SFdiv_core_binary.
  change (Zdigits2 (Zpos HUNDRED)) with 53.
  set (d1 := Zdigits2 (Zpos m1)).
  set (e' := Z.min (fexp prec emax (d1 + e1 - (53 + -46))) (e1 - -46)).
  set (s := e1 - -46 - e').
  assert (Hpe1 : 0 < 2 ^ (- e1)) by (apply pow2_pos; lia).
  assert (Hd1 : d1 <= 60 - e1).
  { apply Zdigits2_le; [| lia]. split; [lia |].
    apply Z.le_lt_trans with (100 * k2 * 2 ^ (- e1)); [exact Hhi |].
    replace (60 - e1) with (60 + - e1) by lia. rewrite pow2_split by lia.
    apply Z.mul_lt_mono_pos_r; [exact Hpe1 |]. unfold prec in Hk2.
    change (2 ^ 60) with (128 * 2 ^ 53). lia. }
  assert (He' : e' <= 0) by (subst e'; rewrite fexp_eq; lia).
  assert (Hs : 0 <= s) by (subst s e'; lia).
  set (m' := match s with
             | 0 => Zpos m1
             | Zpos _ => Z.shiftl (Zpos m1) s
             | Zneg _ => 0
             end).
  assert (Hm' : m' = Zpos m1 * 2 ^ s).
  { subst m'. destruct s as [| p | p] eqn:Es.
    - rewrite Z.pow_0_r. lia.
    - apply Z.shiftl_mul_pow2. lia.
    - lia. }
  clearbody m'.
  assert (Hq : Z.div_eucl m' (Zpos HUNDRED)
               = (m' / Zpos HUNDRED, m' mod Zpos HUNDRED)).
  { unfold Z.div, Z.modulo. destruct (Z.div_eucl m' (Zpos HUNDRED)). reflexivity. }
  rewrite Hq.
  assert (Hunits : 2 ^ (- e1) * 2 ^ s = 2 ^ 46 * 2 ^ (- e')).
  { rewrite <- !pow2_split by lia. f_equal. subst s. lia. }
  assert (Hpe' : 0 < 2 ^ (- e')) by (apply pow2_pos; lia).
  assert (Hps : 0 < 2 ^ s) by (apply pow2_pos; lia).
  assert (H100 : Zpos HUNDRED = 100 * 2 ^ 46) by reflexivity.
  assert (Hlo' : Zpos HUNDRED * (k1 * 2 ^ (- e')) <= m').
  { rewrite Hm', H100.
    replace (100 * 2 ^ 46 * (k1 * 2 ^ (- e')))
      with (100 * k1 * (2 ^ 46 * 2 ^ (- e'))) by ring.
    rewrite <- Hunits. nia. }
  assert (Hhi' : m' <= Zpos HUNDRED * (k2 * 2 ^ (- e'))).
  { rewrite Hm', H100.
    replace (100 * 2 ^ 46 * (k2 * 2 ^ (- e')))
      with (100 * k2 * (2 ^ 46 * 2 ^ (- e'))) by ring.
    rewrite <- Hunits. nia. }
  pose proof (Z.div_mod m' (Zpos HUNDRED) ltac:(lia)) as Hdm.
  pose proof (Z.mod_pos_bound m' (Zpos HUNDRED) ltac:(lia)) as Hmod.
  assert (Hm'0 : 0 <= m') by (rewrite Hm'; nia).
  apply binary_round_aux_bounds.
  - apply Z.div_pos; lia.
  - exact He'.
  - exact Hk1.
  - exact Hk12.
  - exact Hk2.
  - apply Z.div_le_lower_bound; lia.
  - intros _. apply Z.div_le_upper_bound; lia.
  - intros Hne.
    assert (Hr : m' mod Zpos HUNDRED <> 0)
      by (intros E; apply Hne, new_location_exact, E).
    assert (Zpos HUNDRED * (m' / Zpos HUNDRED)
            < Zpos HUNDRED * (k2 * 2 ^ (- e'))) by lia.
    assert (m' / Zpos HUNDRED < k2 * 2 ^ (- e')).
    { apply Z.mul_lt_mono_pos_l with (Zpos HUNDRED); lia. }
    lia.
Qed.

(** [int] of a float between two integers lies between them. *)
Lemma int_of_float_bounds (k1 k2 : Z) (r : spec_float) :
  in_range k1 k2 r ->
  exists k, int_of_float r = Ok k /\ k1 <= k <= k2.
Proof.
  destruct r as [s | s | | s m e]; cbn [in_range int_of_float]; try contradiction.
  - intros [_ H]. exists 0. split; [reflexivity | exact H].
  - intros (-> & He & Hlo & Hhi). destruct e as [| p | p]; try lia.
    + exists (Zpos m). rewrite Z.pow_0_r in *. split; [reflexivity | lia].
    + exists (Zpos m / 2 ^ Zpos p). split; [reflexivity |].
      change (- Zneg p) with (Zpos p) in *.
      assert (0 < 2 ^ Zpos p) by (apply pow2_pos; lia).
      split; [apply Z.div_le_lower_bound | apply Z.div_le_upper_bound]; lia.
Qed.

(** The number of filled glyphs, for a length and a percentage that are
    not zero: between [k1] and [k2] when [100 * k1 <= L * p <= 100 * k2]. *)
Lemma filled_bounds (L : Z) (my : positive) (ey k1 k2 : Z) :
  0 < L < 2 ^ prec -> ey <= 0 ->
  0 <= k1 -> k1 <= k2 -> 100 * k2 < 2 ^ prec ->
  100 * k1 * 2 ^ (- ey) <= L * Zpos my <= 100 * k2 * 2 ^ (- ey) ->
  exists k,
    filled_length (S754_finite false my ey) L = Ok k /\ k1 <= k <= k2.
Proof.
  intros HL Hey Hk1 Hk12 Hk2 Hb. unfold filled_length, float_of_int.
  destruct (@nearest_float_exact L HL) as (mx & ex & -> & Hex & Hmx).
  rewrite float_100.
  assert (Hz := @SFmul_bounds L mx ex my ey (100 * k1) (100 * k2)
                  Hex Hey ltac:(lia) Hmx ltac:(lia) ltac:(lia) Hk2 Hb).
  apply int_of_float_bounds.
  destruct (SFmul prec emax (S754_finite false mx ex) (S754_finite false my ey))
    as [s | s | | s m1 e1] eqn:Ez; cbn [in_range] in Hz; try contradiction.
  - destruct Hz as [-> Hz]. cbn. split; [reflexivity | lia].
  - pose proof Hz as (-> & _). apply SFdiv_100_bounds.
    + exact Hk1.
    + exact Hk12.
    + change (2 ^ prec) with 9007199254740992 in *. lia.
    + exact Hz.
Qed.

End Binary64Rounding.

Section Binary64Values.
Import ProgressBar.
Open Scope Z_scope.

(** A valid float with a positive exponent is at least [2^prec]. *)
Lemma valid_positive_exponent (m : positive) (e : Z) :
  valid_binary prec emax (S754_finite false m e) = true ->
  0 < e -> 2 ^ prec <= Zpos m * 2 ^ e.
Proof.
  cbn [valid_binary]. unfold bounded, canonical_mantissa. intros H He.
  apply andb_prop in H as [H _]. apply Z.eqb_eq in H.
  rewrite fexp_eq in H.
  destruct (digits2_bounds m) as [Hlo _].
  assert (Hd : Zpos (digits2_pos m) = 53) by lia.
  rewrite Hd in Hlo. change (2 ^ (53 - 1)) with 4503599627370496 in Hlo.
  change (2 ^ prec) with (4503599627370496 * 2).
  assert (2 <= 2 ^ e).
  { change 2 with (2 ^ 1) at 1. apply Z.pow_le_mono_r; lia. }
  nia.
Qed.

(** A float with an exponent that is not positive, as a fraction. *)
Lemma value_fraction (m : positive) (e : Z) :
  e <= 0 ->
  exists d : positive,
    value (S754_finite false m e) = Zpos m # d /\ Zpos d = 2 ^ (- e).
Proof.
  intros He. destruct e as [| p | p]; try lia; cbn [value].
  - exists 1%positive. split; reflexivity.
  - exists (2 ^ p)%positive. split; [reflexivity |].
    change (- Zneg p) with (Zpos p). apply Pos2Z.inj_pow.
Qed.

Lemma value_large (m : positive) (e : Z) :
  0 < e -> value (S754_finite false m e) = inject_Z (Zpos m * 2 ^ e).
Proof. intros He. destruct e as [| p | p]; try lia. reflexivity. Qed.

Lemma Qfloor_scaled (L n : Z) (d : positive) :
  Qfloor (inject_Z L * (n # d) / 100) = (L * n) / (100 * Zpos d).
Proof.
  unfold Qfloor, Qdiv, Qmult, Qinv, inject_Z. cbn [Qnum Qden].
  f_equal; lia.
Qed.

End Binary64Values.

Section ProgressBarFacts.
Import ProgressBar.
Open Scope Q_scope.

(** A float with the sign bit set is below zero. *)
Lemma value_negative (m : positive) (e : Z) :
  ~ 0 <= value (S754_finite true m e).
Proof.
  destruct e as [| p | p]; cbn [value]; unfold Qle, Qopp, inject_Z;
    cbn [Qnum Qden]; intros H.
  - lia.
  - assert (0 < 2 ^ Zpos p)%Z by (apply pow2_pos; lia). nia.
  - lia.
Qed.

Lemma filled_length_zero_length (p : spec_float) :
  is_finite p = true -> filled_length p 0 = Ok 0%Z.
Proof. destruct p; [reflexivity | discriminate | discriminate | reflexivity]. Qed.

Lemma filled_length_zero_percent (s : bool) (L : Z) :
  (0 < L < 2 ^ prec)%Z -> filled_length (S754_zero s) L = Ok 0%Z.
Proof.
  intros HL. unfold filled_length, float_of_int.
  destruct (@nearest_float_exact L HL) as (m & e & -> & _ & _).
  destruct s; reflexivity.
Qed.

(** The number of filled glyphs for a percentage that is not negative:
    [floor (L * p / 100)] or one more, and at most [U] when
    [L * p <= 100 * U]. *)
Lemma filled_length_bounds (p : spec_float) (L U : Z) :
  is_finite p = true -> valid_binary prec emax p = true ->
  0 <= value p -> (0 <= L < 2 ^ prec)%Z ->
  inject_Z L * value p <= inject_Z (100 * U) -> (100 * U < 2 ^ prec)%Z ->
  exists k, filled_length p L = Ok k
            /\ (Qfloor (inject_Z L * value p / 100) <= k
                <= Z.min (Qfloor (inject_Z L * value p / 100) + 1) U)%Z.
Proof.
  intros Hfin Hvalid Hpos HL HU HUb.
  assert (HU0 : (0 <= U)%Z).
  { assert (H : 0 <= inject_Z (100 * U)).
    { eapply Qle_trans; [| exact HU].
      apply Qmult_le_0_compat; [| exact Hpos].
      change 0 with (inject_Z 0). rewrite <- Zle_Qle. lia. }
    change 0 with (inject_Z 0) in H. rewrite <- Zle_Qle in H. lia. }
  destruct (Z.eq_dec L 0) as [-> | HL0].
  { exists 0%Z. split; [apply filled_length_zero_length; exact Hfin |].
    assert (E : inject_Z 0 * value p / 100 == 0) by (unfold Qdiv; ring).
    rewrite E. change (Qfloor 0) with 0%Z. lia. }
  destruct p as [s | s | | s m e]; try discriminate.
  - exists 0%Z. split; [apply filled_length_zero_percent; lia |].
    assert (E : inject_Z L * value (S754_zero s) / 100 == 0)
      by (cbn [value]; unfold Qdiv; ring).
    rewrite E. change (Qfloor 0) with 0%Z. lia.
  - destruct s; [exfalso; exact (@value_negative m e Hpos) |].
    assert (He : (e <= 0)%Z).
    { destruct (Z_le_gt_dec e 0) as [He | He]; [exact He | exfalso].
      assert (He' : (0 < e)%Z) by lia.
      pose proof (@valid_positive_exponent m e Hvalid He') as Hbig.
      rewrite (@value_large m e He') in HU.
      rewrite <- inject_Z_mult, <- Zle_Qle in HU.
      nia. }
    destruct (@value_fraction m e He) as (d & Hv & Hd).
    rewrite Hv in *. rewrite Qfloor_scaled.
    assert (HD : (0 < Zpos d)%Z) by lia.
    set (q := (L * Zpos m / (100 * Zpos d))%Z).
    assert (Hq0 : (0 <= q)%Z) by (apply Z.div_pos; nia).
    assert (Hlow : (100 * Zpos d * q <= L * Zpos m)%Z)
      by (apply Z.mul_div_le; lia).
    assert (Hhigh : (L * Zpos m < 100 * Zpos d * Z.succ q)%Z)
      by (apply Z.mul_succ_div_gt; lia).
    assert (HUz : (L * Zpos m <= 100 * U * Zpos d)%Z).
    { unfold Qle, Qmult, inject_Z in HU. cbn [Qnum Qden] in HU. lia. }
    assert (HqU : (q <= U)%Z) by nia.
    assert (Hb : (100 * q * 2 ^ (- e) <= L * Zpos m
                  <= 100 * Z.min (q + 1) U * 2 ^ (- e))%Z).
    { rewrite <- Hd. split; [lia |].
      destruct (Z.min_spec (q + 1) U) as [[_ ->] | [_ ->]]; lia. }
    assert (H1 : (0 < L < 2 ^ prec)%Z) by lia.
    assert (H2 : (q <= Z.min (q + 1) U)%Z) by lia.
    assert (H3 : (100 * Z.min (q + 1) U < 2 ^ prec)%Z) by lia.
    destruct (@filled_bounds L m e q (Z.min (q + 1) U) H1 He Hq0 H2 H3 Hb)
      as (k & Hk & Hr).
    exists k. split; [exact Hk | exact Hr].
Qed.

Lemma len_str_repeat (c : N) (n : Z) : (0 <= n)%Z -> len (str_repeat c n) = n.
Proof.
  intros Hn. unfold len, str_repeat. rewrite repeat_length. lia.
Qed.


Lemma str_repeat_nonpos (c : N) (n : Z) : (n <= 0)%Z -> str_repeat c n = [].
Proof.
  intros Hn. unfold str_repeat.
  replace (Z.to_nat n) with O by lia. reflexivity.
Qed.

Lemma scaled_ge (p : Q) (L : Z) :
  100 <= p -> (0 <= L)%Z -> inject_Z L <= inject_Z L * p / 100.
Proof.
  intros Hp HL. destruct p as [n d].
  unfold Qle, Qdiv, Qmult, Qinv, inject_Z in *. simpl in *. nia.
Qed.


Lemma scaled_below_succ_floor (x : Q) :
  x <= inject_Z (100 * (Qfloor (x / 100) + 1)).
Proof.
  pose proof (Qlt_floor (x / 100)) as H.
  set (f := Qfloor (x / 100)) in *. clearbody f. destruct x as [n d].
  unfold Qlt, Qle, Qdiv, Qmult, Qinv, inject_Z in *. cbn [Qnum Qden] in *.
  rewrite ?Pos2Z.inj_mul in *. lia.
Qed.

Lemma floor_below_scaled (x : Q) :
  inject_Z (100 * Qfloor (x / 100)) <= x.
Proof.
  pose proof (Qfloor_le (x / 100)) as H.
  set (f := Qfloor (x / 100)) in *. clearbody f. destruct x as [n d].
  unfold Qlt, Qle, Qdiv, Qmult, Qinv, inject_Z in *. cbn [Qnum Qden] in *.
  rewrite ?Pos2Z.inj_mul in *. lia.
Qed.

Lemma above_100_nonneg (p : Q) : 100 < p -> 0 <= p.
Proof.
  intros Hp. apply Qlt_le_weak, Qlt_trans with 100; [reflexivity | exact Hp].
Qed.

Lemma above_100_length (p : Q) (L M : Z) :
  100 < p -> (0 <= L)%Z -> inject_Z L * p + 100 < inject_Z M -> (L < M)%Z.
Proof.
  intros Hp HL H. destruct p as [n d].
  unfold Qlt, Qplus, Qmult, inject_Z in *. cbn [Qnum Qden] in *.
  rewrite ?Pos2Z.inj_mul in *. nia.
Qed.

Lemma succ_le_scaled (p : Q) (L : Z) :
  100 <= inject_Z L * (p - 100) -> inject_Z (L + 1) <= inject_Z L * p / 100.
Proof.
  destruct p as [n d].
  unfold Qle, Qdiv, Qmult, Qinv, Qminus, Qplus, Qopp, inject_Z.
  cbn [Qnum Qden]. rewrite ?Pos2Z.inj_mul. intros H. nia.
Qed.



(** X18.  For every percentage with one decimal from 0.0 to 100.0 and the default
    length, the bar computed in binary64 arithmetic is the bar of the exact
    formula. *)
Lemma create_progress_bar_binary64_exact (k : Z) :
  (0 <= k <= 1000)%Z ->
  create_progress_bar (one_decimal k) DEFAULT_LENGTH
  = Ok (create_progress_bar_exact (inject_Z k / 10) DEFAULT_LENGTH)
  /\ create_progress_bar_exact (value (one_decimal k)) DEFAULT_LENGTH
     = create_progress_bar_exact (inject_Z k / 10) DEFAULT_LENGTH.
Proof.
  intros Hk.
  assert (Hall : forallb (fun n => binary64_agrees (Z.of_nat n)) (seq 0 1001)
                 = true) by (vm_compute; reflexivity).
  rewrite forallb_forall in Hall.
  specialize (Hall (Z.to_nat k)). rewrite Z2Nat.id in Hall by lia.
  assert (Hin : In (Z.to_nat k) (seq 0 1001)) by (apply in_seq; lia).
  apply Hall in Hin. unfold binary64_agrees in Hin.
  destruct (create_progress_bar (one_decimal k) DEFAULT_LENGTH)
    as [bar |]; [| discriminate].
  apply andb_prop in Hin as [H1 H2]. unfold str_eqb in H1, H2.
  destruct (list_eq_dec N.eq_dec bar
              (create_progress_bar_exact (inject_Z k / 10) DEFAULT_LENGTH))
    as [E1 |]; [| discriminate].
  destruct (list_eq_dec N.eq_dec bar
              (create_progress_bar_exact (value (one_decimal k))
                 DEFAULT_LENGTH))
    as [E2 |]; [| discriminate].
  split; congruence.
Qed.


(** C10 as it is written fails: at 105 percent the default bar has
    ten filled glyphs and no empty one, so it is not longer than its
    length 10. *)
Lemma create_progress_bar_105_not_longer :
  let percent := S754_finite false 7388718138654720 (-46) in
  valid_binary prec emax percent = true
  /\ value percent == 105
  /\ 100 < value percent
  /\ create_progress_bar percent 10 = Ok (repeat FULL_BLOCK 10)
  /\ ~ (10 < len (repeat FULL_BLOCK 10))%Z.
Proof.
  cbv zeta. split; [vm_compute; reflexivity |].
  split; [vm_compute; reflexivity |].
  split; [vm_compute; reflexivity |].
  split; [vm_compute; reflexivity |].
  vm_compute. discriminate.
Qed.

(** C10, amended.  For a float percentage above 100 and a length [L >= 0]
    with [L * p + 100 < 2^53], the bar is [k = int(L * p / 100)] filled
    glyphs and no empty glyph, where [k], computed on floats, is
    [floor (L * p / 100)] or one more; it has at least [L] glyphs, and more
    than [L] whenever [L * (p - 100) >= 100]. *)
Theorem create_progress_bar_above_100 (percent : spec_float) (length : Z) :
  is_finite percent = true -> valid_binary prec emax percent = true ->
  100 < value percent -> (0 <= length)%Z ->
  inject_Z length * value percent + 100 < inject_Z (2 ^ 53) ->
  exists filled bar,
    filled_length percent length = Ok filled
    /\ create_progress_bar percent length = Ok bar
    /\ bar = repeat FULL_BLOCK (Z.to_nat filled)
    /\ len bar = filled
    /\ (length <= len bar)%Z
    /\ (Qfloor (inject_Z length * value percent / 100) <= filled
        <= Qfloor (inject_Z length * value percent / 100) + 1)%Z
    /\ (100 <= inject_Z length * (value percent - 100) ->
        (length < len bar)%Z).
Proof.
  intros Hfin Hvalid Hp HL Hsmall.
  set (x := inject_Z length * value percent) in *.
  set (q := Qfloor (x / 100)).
  assert (Hp0 : 0 <= value percent) by (apply above_100_nonneg; exact Hp).
  assert (HLq : (length <= q)%Z).
  { subst q x. rewrite <- (Qfloor_Z length) at 1.
    apply Qfloor_resp_le, scaled_ge; [apply Qlt_le_weak; exact Hp | exact HL]. }
  assert (Hq : (100 * (q + 1) < 2 ^ prec)%Z).
  { change (2 ^ prec)%Z with (2 ^ 53)%Z. rewrite Zlt_Qlt.
    eapply Qle_lt_trans; [| exact Hsmall].
    replace (100 * (q + 1))%Z with (100 * q + 100)%Z by ring.
    rewrite inject_Z_plus. apply Qplus_le_l. apply floor_below_scaled. }
  destruct (@filled_length_bounds percent length (q + 1) Hfin Hvalid Hp0)
    as (k & Hk & Hr).
  - split; [exact HL |].
    apply (@above_100_length (value percent) length (2 ^ prec) Hp HL Hsmall).
  - apply scaled_below_succ_floor.
  - exact Hq.
  - fold x q in Hr. exists k. eexists. split; [exact Hk |].
    unfold create_progress_bar. rewrite Hk. cbv zeta.
    split; [reflexivity |].
    rewrite (@str_repeat_nonpos LIGHT_SHADE (length - k)) by lia.
    rewrite app_nil_r.
    split; [reflexivity |].
    rewrite len_str_repeat by lia.
    split; [reflexivity |]. split; [lia |]. split; [lia |].
    intros Hfar.
    assert (Hq1 : (length + 1 <= q)%Z).
    { subst q x. rewrite <- (Qfloor_Z (length + 1)).
      apply Qfloor_resp_le, succ_le_scaled, Hfar. }
    lia.
Qed.

(** At 250 percent the default bar has 25 glyphs, all filled. *)
Lemma create_progress_bar_above_100_witness :
  create_progress_bar (nearest_float 250) 10 = Ok (repeat FULL_BLOCK 25)
  /\ (10 < len (repeat FULL_BLOCK 25))%Z.
Proof.
  destruct (@create_progress_bar_above_100 (nearest_float 250) 10)
    as (filled & bar & Hf & Hb & Hbar & Hlen & _ & _ & Hfar).
  - reflexivity.
  - vm_compute; reflexivity.
  - vm_compute; reflexivity.
  - vm_compute; discriminate.
  - vm_compute; reflexivity.
  - vm_compute in Hf. injection Hf as <-. subst bar.
    split; [exact Hb | apply Hfar; vm_compute; discriminate].
Defined.

(** X21.  A percentage that is no number: with a NaN [create_progress_bar]
    raises [ValueError]; with an infinity it raises [OverflowError], but
    [ValueError] when the length is 0, the product being a NaN. *)
Theorem create_progress_bar_not_finite (length : Z) :
  (0 <= length < 2 ^ 53)%Z ->
  create_progress_bar S754_nan length = Raise ValueError
  /\ forall s,
       create_progress_bar (S754_infinity s) length
       = Raise (if (length =? 0)%Z then ValueError else OverflowError).
Proof.
  intros HL. unfold create_progress_bar, filled_length, float_of_int.
  destruct (Z.eq_dec length 0) as [-> | Hne].
  - split; [reflexivity | intros s; destruct s; reflexivity].
  - destruct (@nearest_float_exact length) as (m & e & -> & _ & _).
    + change (2 ^ prec)%Z with (2 ^ 53)%Z. lia.
    + apply Z.eqb_neq in Hne. rewrite Hne.
      split; [reflexivity | intros s; destruct s; reflexivity].
Qed.

Lemma create_progress_bar_not_finite_witness :
  create_progress_bar S754_nan 10 = Raise ValueError
  /\ create_progress_bar (S754_infinity false) 10 = Raise OverflowError.
Proof.
  destruct (@create_progress_bar_not_finite 10) as [Hnan Hinf].
  - split; vm_compute; [discriminate | reflexivity].
  - split; [exact Hnan | exact (Hinf false)].
Defined.

End ProgressBarFacts.

(* ================================================================== *)
(** ** The uptime resolver *)

Section UptimeFacts.
Import Uptime.

(** A search whose pattern matches nowhere inside [pre] is the search in
    what follows [pre]. *)
Lemma re_search_skip (m : str -> option str) (pre s : str) :
  no_match_before m pre s = true -> re_search m (pre ++ s) = re_search m s.
Proof.
  induction pre as [| c pre IH]; intros H.
  - reflexivity.
  - cbn [no_match_before] in H. cbn [app re_search] in *.
    destruct (m (c :: pre ++ s)) eqn:Hm; [discriminate |].
    apply IH, H.
Qed.

(** A pattern that matches at the start is found there. *)
Lemma re_search_here (m : str -> option str) (s g : str) :
  m s = Some g -> re_search m s = Some g.
Proof. intros H. destruct s; cbn [re_search]; rewrite H; reflexivity. Qed.

Lemma take_while_dot_line (g rest : str) :
  forallb dot g = true ->
  rest = [] \/ (exists r, rest = NEWLINE :: r) ->
  take_while dot (g ++ rest) = g.
Proof.
  intros Hg Hrest. induction g as [| c g IH].
  - destruct Hrest as [-> | [r ->]]; reflexivity.
  - cbn [forallb] in Hg. apply andb_prop in Hg as [Hc Hg].
    cbn [app take_while]. rewrite Hc, (IH Hg). reflexivity.
Qed.

(** The pattern [Uptime: (.+)] at a line [Uptime: 3 days] that ends
    there. *)
Lemma re_Uptime_3_days (rest : str) :
  rest = [] \/ (exists r, rest = NEWLINE :: r) ->
  re_search re_Uptime (py "Uptime: 3 days" ++ rest) = Some (py "3 days").
Proof.
  intros Hrest. apply re_search_here.
  { unfold re_Uptime, then_match.
    change (strip_prefix (py "Uptime: ") (py "Uptime: 3 days" ++ rest))
      with (Some (py "3 days" ++ rest)).
    unfold dot_plus_greedy.
    rewrite (@take_while_dot_line (py "3 days") rest);
      [reflexivity | reflexivity | exact Hrest]. }
Qed.

(** The pattern [up (.+?)(,|\n)] at [up 2 hours,]. *)
Lemma re_up_2_hours (rest : str) :
  re_search re_up_comma_or_newline (py "up 2 hours," ++ rest)
  = Some (py "2 hours").
Proof. reflexivity. Qed.

(** C6 as it is written fails: an output that contains
    [Uptime: 3 days] and goes on in the same line, as the uptime line of the
    tool does, gives the whole rest of the line. *)
Lemma uptime_3_days_line_goes_on :
  let output := py "OS: Linux" ++ [NEWLINE] ++ py "Uptime: 3 days, 2 hours"
                ++ [NEWLINE] in
  let h := host (py "Linux") (Completed output)
             (Raises FileNotFoundError) (Raises FileNotFoundError) in
  contains (py "Uptime: 3 days") output = true
  /\ snd (get_server_uptime h) = Return (py "3 days, 2 hours")
  /\ snd (get_server_uptime h) <> Return (py "3 days").
Proof.
  cbv zeta. split; [reflexivity |]. split; [reflexivity |].
  vm_compute. discriminate.
Qed.

(** C6, amended.
    - If the leftmost match of [Uptime: (.+)] in the output of the primary
      tool is at [Uptime: 3 days] and the line ends there, the resolver
      returns [3 days].
    - If that pattern matches nowhere and the leftmost match of
      [up (.+?)(,|\n)] is at [up 2 hours,], it returns [2 hours].
    - If the primary tool cannot be run ([FileNotFoundError] or
      [SubprocessError]) and the platform fallback gives no value, it
      returns [Unknown (neofetch not available)]. *)
Theorem get_server_uptime_outcomes (h : Host) :
  (forall pre rest,
      subprocess_run h NEOFETCH
      = Completed (pre ++ py "Uptime: 3 days" ++ rest) ->
      no_match_before re_Uptime pre (py "Uptime: 3 days" ++ rest) = true ->
      rest = [] \/ (exists r, rest = NEWLINE :: r) ->
      snd (get_server_uptime h) = Return (py "3 days"))
  /\ (forall pre rest,
      subprocess_run h NEOFETCH
      = Completed (pre ++ py "up 2 hours," ++ rest) ->
      re_search re_Uptime (pre ++ py "up 2 hours," ++ rest) = None ->
      no_match_before re_up_comma_or_newline pre (py "up 2 hours," ++ rest)
      = true ->
      snd (get_server_uptime h) = Return (py "2 hours"))
  /\ (forall e,
      subprocess_run h NEOFETCH = Raises e ->
      is_SubprocessError_or_FileNotFoundError e = true ->
      fallback_yields_nothing h ->
      snd (get_server_uptime h) = Return UNKNOWN_UNAVAILABLE).
Proof.
  split; [| split].
  - intros pre rest Hrun Hpre Hrest. unfold get_server_uptime.
    rewrite Hrun, (re_search_skip _ _ _ Hpre), (re_Uptime_3_days Hrest).
    reflexivity.
  - intros pre rest Hrun Hno Hpre. unfold get_server_uptime.
    rewrite Hrun, Hno, (re_search_skip _ _ _ Hpre), re_up_2_hours.
    reflexivity.
  - intros e Hrun He Hnothing. unfold get_server_uptime.
    rewrite Hrun, He.
    assert (Hfb : snd (platform_fallback h) = None).
    { unfold platform_fallback, str_eqb.
      destruct Hnothing as [[Hsys [e' Hr]] | [[Hsys Hd] | [Hl Hd]]].
      - rewrite Hsys. cbn. rewrite Hr. reflexivity.
      - rewrite Hsys.
        destruct (list_eq_dec N.eq_dec (py "Darwin") (py "Linux")) as [E | _];
          [discriminate E |].
        destruct (list_eq_dec N.eq_dec (py "Darwin") (py "Darwin")) as [_ | N];
          [| contradiction N; reflexivity].
        destruct Hd as [[e' Hr] | [out [Hr Hs]]]; rewrite Hr;
          [| rewrite Hs]; reflexivity.
      - destruct (list_eq_dec N.eq_dec (platform_system h) (py "Linux"));
          [contradiction |].
        destruct (list_eq_dec N.eq_dec (platform_system h) (py "Darwin"));
          [contradiction |].
        reflexivity. }
    destruct (platform_fallback h) as [evs r]. cbn in Hfb. rewrite Hfb.
    reflexivity.
Qed.

Lemma get_server_uptime_outcomes_witness :
  snd (get_server_uptime
         (host (py "Linux")
            (Completed (py "OS: Linux" ++ [NEWLINE] ++ py "Uptime: 3 days"
                        ++ [NEWLINE] ++ py "Shell: bash"))
            (Raises FileNotFoundError) (Raises FileNotFoundError)))
  = Return (py "3 days")
  /\ snd (get_server_uptime
            (host (py "Linux")
               (Completed (py "10:00 " ++ py "up 2 hours," ++ py " 3 users"))
               (Raises FileNotFoundError) (Raises FileNotFoundError)))
     = Return (py "2 hours")
  /\ snd (get_server_uptime
            (host (py "Windows") (Raises FileNotFoundError)
               (Raises FileNotFoundError) (Raises FileNotFoundError)))
     = Return UNKNOWN_UNAVAILABLE.
Proof.
  split; [| split].
  - apply (proj1 (get_server_uptime_outcomes _))
      with (pre := py "OS: Linux" ++ [NEWLINE])
           (rest := [NEWLINE] ++ py "Shell: bash").
    + reflexivity.
    + reflexivity.
    + right. eexists. reflexivity.
  - apply (proj1 (proj2 (get_server_uptime_outcomes _)))
      with (pre := py "10:00 ") (rest := py " 3 users").
    + reflexivity.
    + reflexivity.
    + reflexivity.
  - apply (proj2 (proj2 (get_server_uptime_outcomes _)))
      with (e := FileNotFoundError).
    + reflexivity.
    + reflexivity.
    + right. right. split; discriminate.
Defined.

(** The commands of the platform fallback: one command on Linux, another
    on macOS, none elsewhere. *)
Lemma platform_fallback_commands (h : Host) :
  commands (fst (platform_fallback h))
  = if str_eqb (platform_system h) (py "Linux") then [UPTIME_P]
    else if str_eqb (platform_system h) (py "Darwin") then [UPTIME]
    else [].
Proof.
  unfold platform_fallback.
  destruct (str_eqb (platform_system h) (py "Linux")).
  - destruct (subprocess_run h UPTIME_P); reflexivity.
  - destruct (str_eqb (platform_system h) (py "Darwin")); [| reflexivity].
    destruct (subprocess_run h UPTIME) as [out | e]; [| reflexivity].
    destruct (re_search re_up_comma out); reflexivity.
Qed.

(** C7 as it is written fails: when the primary tool runs and its
    output matches neither pattern, the resolver returns a sentinel of its
    own at once; the platform command is not run, even where it would have
    given the uptime. *)
Lemma unrecognized_output_skips_platform_command :
  let h := host (py "Linux") (Completed (py "OS: Linux"))
             (Completed (py "up 2 hours")) (Raises FileNotFoundError) in
  re_search re_Uptime (py "OS: Linux") = None
  /\ re_search re_up_comma_or_newline (py "OS: Linux") = None
  /\ snd (platform_fallback h) = Some (py "2 hours")
  /\ get_server_uptime h = ([Run NEOFETCH], Return UNKNOWN_FORMAT)
  /\ ~ In UPTIME_P (commands (fst (get_server_uptime h))).
Proof.
  cbv zeta. repeat split; try reflexivity.
  vm_compute. intros [H | []]. discriminate H.
Qed.

(** C7, amended.  The primary tool is run first.
    - If it completes, only its output is used: the [Uptime:] pattern, then
      the [up ...] pattern, then the sentinel
      [Unknown (neofetch available but format not recognized)]; no other
      command is run.
    - If it cannot be run ([FileNotFoundError] or [SubprocessError]), the
      platform command is run next ([uptime -p] on Linux, [uptime] on
      macOS, none elsewhere), and its value is returned, or the sentinel
      [Unknown (neofetch not available)] when it gives none. *)
Theorem get_server_uptime_order (h : Host) :
  (forall output g,
      subprocess_run h NEOFETCH = Completed output ->
      re_search re_Uptime output = Some g ->
      get_server_uptime h = ([Run NEOFETCH], Return (strip g)))
  /\ (forall output g,
      subprocess_run h NEOFETCH = Completed output ->
      re_search re_Uptime output = None ->
      re_search re_up_comma_or_newline output = Some g ->
      get_server_uptime h = ([Run NEOFETCH], Return (strip g)))
  /\ (forall output,
      subprocess_run h NEOFETCH = Completed output ->
      re_search re_Uptime output = None ->
      re_search re_up_comma_or_newline output = None ->
      get_server_uptime h = ([Run NEOFETCH], Return UNKNOWN_FORMAT))
  /\ (forall e,
      subprocess_run h NEOFETCH = Raises e ->
      is_SubprocessError_or_FileNotFoundError e = true ->
      commands (fst (get_server_uptime h))
      = NEOFETCH :: (if str_eqb (platform_system h) (py "Linux") then [UPTIME_P]
                     else if str_eqb (platform_system h) (py "Darwin")
                          then [UPTIME] else [])
      /\ snd (get_server_uptime h)
         = Return match snd (platform_fallback h) with
                  | Some v => v
                  | None => UNKNOWN_UNAVAILABLE
                  end).
Proof.
  unfold get_server_uptime. repeat split.
  - intros output g -> ->. reflexivity.
  - intros output g -> -> ->. reflexivity.
  - intros output -> -> ->. reflexivity.
  - rewrite H, H0, <- platform_fallback_commands.
    destruct (platform_fallback h). reflexivity.
  - rewrite H, H0. destruct (platform_fallback h) as [evs [v |]]; reflexivity.
Qed.

Lemma get_server_uptime_order_witness :
  get_server_uptime
    (host (py "Linux") (Completed (py "OS: Linux"))
       (Completed (py "up 2 hours")) (Raises FileNotFoundError))
  = ([Run NEOFETCH], Return UNKNOWN_FORMAT)
  /\ commands (fst (get_server_uptime
                      (host (py "Linux") (Raises FileNotFoundError)
                         (Completed (py "up 2 hours"))
                         (Raises FileNotFoundError))))
     = [NEOFETCH; UPTIME_P]
  /\ snd (get_server_uptime
            (host (py "Linux") (Raises FileNotFoundError)
               (Completed (py "up 2 hours")) (Raises FileNotFoundError)))
     = Return (py "2 hours").
Proof.
  split.
  - apply (proj1 (proj2 (proj2 (get_server_uptime_order _))))
      with (output := py "OS: Linux"); reflexivity.
  - destruct (proj2 (proj2 (proj2 (get_server_uptime_order
        (host (py "Linux") (Raises FileNotFoundError)
           (Completed (py "up 2 hours")) (Raises FileNotFoundError)))))
        FileNotFoundError eq_refl eq_refl) as [Hc Hs].
    split; [exact Hc | exact Hs].
Defined.

(** The resolver returns a string whenever the primary tool completes or
    fails with one of the two exceptions its handler names. *)
Lemma get_server_uptime_returns (h : Host) :
  (forall e, subprocess_run h NEOFETCH = Raises e ->
             is_SubprocessError_or_FileNotFoundError e = true) ->
  exists v, snd (get_server_uptime h) = Return v.
Proof.
  intros Hcaught. unfold get_server_uptime.
  destruct (subprocess_run h NEOFETCH) as [output | e].
  - destruct (re_search re_Uptime output); [eexists; reflexivity |].
    destruct (re_search re_up_comma_or_newline output); eexists; reflexivity.
  - rewrite (Hcaught e eq_refl).
    destruct (platform_fallback h) as [evs [v |]]; eexists; reflexivity.
Qed.

(** C9.  The code at the failing input: the primary tool is installed but
    may not be executed, [subprocess.run] raises [PermissionError], and the
    exception leaves [get_server_uptime]; the platform command, which would
    have given the uptime, is not tried. *)
Theorem get_server_uptime_PermissionError_propagates :
  get_server_uptime
    (host (py "Linux") (Raises PermissionError)
       (Completed (py "up 2 hours")) (Raises FileNotFoundError))
  = ([Run NEOFETCH], Raise PermissionError).
Proof. reflexivity. Qed.

End UptimeFacts.

(* ================================================================== *)
(** ** The accent colours *)

Section ColourFacts.
Import Formatter.

(** C8 as it is written fails: the embed of full mode, as
    [create_stats_embed] builds it and the periodic task publishes it, has
    the colour of the cpu embed. *)
Lemma full_and_cpu_share_colour :
  Full <> Cpu
  /\ color (formatter_embed Full []) = color (formatter_embed Cpu [])
  /\ color (create_stats_embed []) = 0x1E90FF%Z
  /\ color (cpu []) = 0x1E90FF%Z.
Proof. repeat split; try reflexivity. discriminate. Qed.

(** C8, amended.  The replies of the six commands have pairwise different
    accent colours, [!stats] having replaced the colour of the full embed;
    the full embed as [create_stats_embed] returns it, which the periodic
    task publishes, has the colour of the cpu embed. *)
Theorem command_colours_distinct (m1 m2 : mode) (fs1 fs2 : list Field) :
  m1 <> m2 ->
  color (command_embed m1 fs1) <> color (command_embed m2 fs2)
  /\ color (create_stats_embed fs1) = color (cpu fs2)
  /\ color (stats fs1) <> color (create_stats_embed fs1).
Proof.
  intros Hm. split; [| split; [reflexivity | discriminate]].
  destruct m1, m2; try (contradiction Hm; reflexivity); discriminate.
Qed.

Lemma command_colours_distinct_witness :
  color (command_embed Full []) <> color (command_embed Cpu []).
Proof.
  apply (proj1 (@command_colours_distinct Full Cpu [] [] ltac:(discriminate))).
Defined.

End ColourFacts.

(* ================================================================== *)
(** ** The periodic task *)

Section PublisherFacts.
Import Publisher.

Variable cid : Z.
Hypothesis cid_set : cid <> 0%Z.

Lemma cid_eqb : (cid =? 0)%Z = false.
Proof. apply Z.eqb_neq, cid_set. Qed.

Lemma state_of_active (st : option Z) (mid : Z) :
  state_of st = HasActiveMessage mid ->
  st = Some mid /\ mid <> 0%Z /\ truthy st = true.
Proof.
  unfold state_of. destruct st as [n |]; cbn; [| discriminate].
  destruct (n =? 0)%Z eqn:Hn; cbn; [discriminate |].
  intros [= <-]. apply Z.eqb_neq in Hn. auto.
Qed.

Lemma state_of_inactive (st : option Z) :
  state_of st = NoActiveMessage -> truthy st = false.
Proof. unfold state_of. destruct (truthy st); [discriminate | reflexivity]. Qed.

Lemma state_of_some (mid : Z) :
  mid <> 0%Z -> state_of (Some mid) = HasActiveMessage mid.
Proof.
  intros H. unfold state_of. cbn. apply Z.eqb_neq in H. rewrite H. reflexivity.
Qed.

(** A run without active message whose send succeeds. *)
Lemma update_stats_send (w : World) (st : option Z) (m : Message) :
  state_of st = NoActiveMessage ->
  send_succeeds cid w m ->
  exists channel embed,
    update_stats cid w st
    = {| final_id := Some (id m);
         events := [SendMessage (channel_id channel) embed];
         how := Returned |}.
Proof.
  intros Hst (channel & embed & Hc & He & Hs). exists channel, embed.
  unfold update_stats.
  rewrite cid_eqb, Hc, He, (state_of_inactive _ Hst), Hs. reflexivity.
Qed.

(** A run with active message [mid] whose fetch and edit succeed. *)
Lemma update_stats_edit (w : World) (st : option Z) (mid : Z) :
  state_of st = HasActiveMessage mid ->
  edit_succeeds cid w mid ->
  exists channel embed,
    update_stats cid w st
    = {| final_id := st;
         events := [FetchMessage (channel_id channel) mid;
                    EditMessage mid embed];
         how := Returned |}.
Proof.
  intros Hst (channel & embed & Hc & He & Hf & Hed). exists channel, embed.
  apply state_of_active in Hst as (-> & Hmid & Ht).
  unfold update_stats. rewrite cid_eqb, Hc, He, Ht. cbn [the_id].
  rewrite Hf. cbn [id]. rewrite Hed. reflexivity.
Qed.

(** Runs that start with the active message [mid] and all fetch and edit
    it without error. *)
Lemma ticks_edit (ws : list World) (mid : Z) :
  mid <> 0%Z ->
  Forall (fun w => edit_succeeds cid w mid) ws ->
  let rs := ticks cid ws (Some mid) in
  map final_id rs = repeat (Some mid) (List.length ws)
  /\ map sends rs = repeat O (List.length ws)
  /\ map edited_ids rs = repeat [mid] (List.length ws)
  /\ map how rs = repeat Returned (List.length ws).
Proof.
  intros Hmid Hws. induction Hws as [| w ws Hw Hws IH]; cbn zeta in *.
  - repeat split; reflexivity.
  - destruct (@update_stats_edit w (Some mid) mid (state_of_some Hmid) Hw)
      as (channel & embed & Hrun).
    cbn [ticks]. rewrite Hrun. cbn [how final_id map List.length repeat].
    destruct IH as (H1 & H2 & H3 & H4).
    rewrite H1, H2, H3, H4. repeat split; reflexivity.
Qed.

(** C1.  From a state without active message, a run whose send succeeds
    stores the id of the message sent; every run after it whose fetch and
    edit succeed asks to edit the message of that id, sends nothing, and
    keeps the id.  For three runs: one send, then two edits of the message
    sent.  (The id is one Discord gives, which is not 0.) *)
Theorem ticks_send_then_edit (w : World) (ws : list World) (st : option Z)
    (m : Message) :
  state_of st = NoActiveMessage ->
  id m <> 0%Z ->
  send_succeeds cid w m ->
  Forall (fun w' => edit_succeeds cid w' (id m)) ws ->
  let rs := ticks cid (w :: ws) st in
  map final_id rs = repeat (Some (id m)) (S (List.length ws))
  /\ map sends rs = 1%nat :: repeat O (List.length ws)
  /\ map edited_ids rs = [] :: repeat [id m] (List.length ws)
  /\ map how rs = repeat Returned (S (List.length ws))
  /\ map state_of (map final_id rs)
     = repeat (HasActiveMessage (id m)) (S (List.length ws)).
Proof.
  intros Hst Hm Hsend Hws rs.
  destruct (@update_stats_send w st m Hst Hsend) as (channel & embed & Hrun).
  destruct (ticks_edit Hm Hws) as (H1 & H2 & H3 & H4).
  subst rs. cbn [ticks]. rewrite Hrun. cbn [how final_id map repeat].
  rewrite H1, H2, H3, H4.
  repeat split; try reflexivity.
  rewrite map_repeat, (state_of_some Hm). reflexivity.
Qed.

(** C2.  In a run with active message [mid], when the fetch of the message
    or its edit fails with [NotFound], the run makes one send call, as its
    last call; when that send gives the message [m], the id kept is the id
    of [m]. *)
Theorem update_stats_not_found_resends (w : World) (st : option Z) (mid : Z) :
  state_of st = HasActiveMessage mid ->
  edit_fails cid w mid NotFound ->
  let r := update_stats cid w st in
  sends r = 1%nat
  /\ (exists before channel embed,
         events r = before ++ [SendMessage (channel_id channel) embed])
  /\ (forall m,
         send_succeeds cid w m ->
         final_id r = Some (id m)
         /\ (id m <> 0%Z -> state_of (final_id r) = HasActiveMessage (id m))
         /\ how r = Returned).
Proof.
  intros Hst (channel & embed & Hc & He & Hfail) r.
  apply state_of_active in Hst as (-> & Hmid & Ht).
  assert (Hrun : exists before,
             r = send_replacement w channel embed (Some mid) before
             /\ filter is_send before = []).
  { subst r. unfold update_stats. rewrite cid_eqb, Hc, He, Ht. cbn [the_id].
    destruct Hfail as [Hf | [Hf Hed]]; rewrite Hf.
    - eexists. split; reflexivity.
    - cbn [id]. rewrite Hed. eexists. split; reflexivity. }
  destruct Hrun as (before & -> & Hns). unfold send_replacement.
  split; [| split].
  - destruct (send w channel embed); unfold sends; cbn [events];
      rewrite filter_app, Hns; reflexivity.
  - exists before, channel, embed. destruct (send w channel embed); reflexivity.
  - intros m (channel' & embed' & Hc' & He' & Hs').
    rewrite Hc in Hc'. injection Hc' as <-.
    rewrite He in He'. injection He' as <-.
    rewrite Hs'. repeat split; try reflexivity.
    intros Hm. apply (state_of_some Hm).
Qed.

(** C4.  A failure other than [NotFound] on the edit leaves the state as it
    was.  Without active message, a send that fails leaves the state
    without active message, and the run returns when the failure is a
    [discord.HTTPException] ([Forbidden] included).  With active message
    [mid], a fetch or edit that fails with something else than [NotFound]
    leaves [mid] active, no send is made, and the run returns when the
    failure is a [discord.HTTPException]. *)
Theorem update_stats_failure_keeps_state (w : World) (st : option Z) :
  let r := update_stats cid w st in
  (forall e,
      state_of st = NoActiveMessage ->
      send_fails cid w e ->
      final_id r = st
      /\ state_of (final_id r) = NoActiveMessage
      /\ (is_HTTPException e = true -> how r = Returned))
  /\ (forall mid e,
      state_of st = HasActiveMessage mid ->
      e <> NotFound ->
      edit_fails cid w mid e ->
      final_id r = st
      /\ state_of (final_id r) = HasActiveMessage mid
      /\ sends r = O
      /\ (is_HTTPException e = true -> how r = Returned)).
Proof.
  intros r. split.
  - intros e Hst (channel & embed & Hc & He & Hs). subst r.
    unfold update_stats.
    rewrite cid_eqb, Hc, He, (state_of_inactive _ Hst), Hs.
    destruct e; cbn; repeat split; auto; discriminate.
  - intros mid e Hst Hne (channel & embed & Hc & He & Hfail). subst r.
    pose proof Hst as Hst'.
    apply state_of_active in Hst' as (-> & Hmid & Ht).
    unfold update_stats. rewrite cid_eqb, Hc, He, Ht. cbn [the_id].
    destruct Hfail as [Hf | [Hf Hed]]; rewrite Hf; [| cbn [id]; rewrite Hed];
      destruct e; try (contradiction Hne; reflexivity);
      cbn; repeat split; auto; discriminate.
Qed.

End PublisherFacts.

(** C3.  When the configured channel id is 0, or resolves to no channel,
    the run makes no fetch, edit or send call, keeps the tracked id and
    returns. *)
Theorem update_stats_no_channel (cid : Z) (w : Publisher.World)
    (st : option Z) :
  cid = 0%Z \/ Publisher.get_channel w cid = None ->
  let r := Publisher.update_stats cid w st in
  Publisher.final_id r = st
  /\ Publisher.sends r = O
  /\ Publisher.edits r = O
  /\ Publisher.edited_ids r = []
  /\ (forall ev, In ev (Publisher.events r) ->
                 ev = Publisher.PrintChannelIdNotSet
                 \/ ev = Publisher.PrintChannelNotFound)
  /\ Publisher.how r = Publisher.Returned.
Proof.
  intros H r. subst r. unfold Publisher.update_stats.
  destruct (cid =? 0)%Z eqn:Hcid.
  - cbn. repeat split; auto. intros ev [<- | []]. left. reflexivity.
  - destruct H as [-> | ->]; [discriminate Hcid |].
    cbn. repeat split; auto. intros ev [<- | []]. right. reflexivity.
Qed.

(** *** The theorems on concrete runs *)

Section PublisherRuns.
Import Publisher Formatter.

(** Three runs: a send that gives the message 1001, then two edits. *)
Lemma ticks_send_then_edit_witness :
  let w1 := world (Some sample_channel) (Ok sample_embed)
                  (Err NotFound) (Err NotFound) (Ok {| id := 1001 |}) in
  let w2 := world (Some sample_channel) (Ok sample_embed)
                  (Ok tt) (Ok tt) (Err Forbidden) in
  let rs := ticks 42 [w1; w2; w2] None in
  map final_id rs = [Some 1001%Z; Some 1001%Z; Some 1001%Z]
  /\ map sends rs = [1%nat; O; O]
  /\ map edited_ids rs = [[]; [1001%Z]; [1001%Z]].
Proof.
  intros w1 w2 rs.
  destruct (@ticks_send_then_edit 42 ltac:(discriminate) w1 [w2; w2] None
              {| id := 1001 |}) as (H1 & H2 & H3 & _).
  - reflexivity.
  - discriminate.
  - exists sample_channel, sample_embed. repeat split.
  - repeat constructor; exists sample_channel, sample_embed; repeat split.
  - repeat split; assumption.
Defined.

(** The message 1001 is gone: the run sends the message 1002 and tracks
    it. *)
Lemma update_stats_not_found_resends_witness :
  let w := world (Some sample_channel) (Ok sample_embed)
                 (Err NotFound) (Ok tt) (Ok {| id := 1002 |}) in
  sends (update_stats 42 w (Some 1001%Z)) = 1%nat
  /\ final_id (update_stats 42 w (Some 1001%Z)) = Some 1002%Z.
Proof.
  intros w.
  destruct (@update_stats_not_found_resends 42 ltac:(discriminate) w
              (Some 1001%Z) 1001) as (H1 & _ & H3).
  - reflexivity.
  - exists sample_channel, sample_embed. repeat split. left. reflexivity.
  - split; [exact H1 |].
    apply (H3 {| id := 1002 |}).
    exists sample_channel, sample_embed. repeat split.
Defined.

(** A send without permission, and an edit without permission. *)
Lemma update_stats_failure_keeps_state_witness :
  let w := world (Some sample_channel) (Ok sample_embed)
                 (Ok tt) (Err Forbidden) (Err Forbidden) in
  final_id (update_stats 42 w None) = None
  /\ final_id (update_stats 42 w (Some 1001%Z)) = Some 1001%Z.
Proof.
  intros w. split.
  - apply (proj1 (@update_stats_failure_keeps_state 42 ltac:(discriminate)
                    w None) Forbidden).
    + reflexivity.
    + exists sample_channel, sample_embed. repeat split.
  - apply (proj2 (@update_stats_failure_keeps_state 42 ltac:(discriminate)
                    w (Some 1001%Z)) 1001%Z Forbidden).
    + reflexivity.
    + discriminate.
    + exists sample_channel, sample_embed. repeat split. right. split; reflexivity.
Defined.

(** No sample_channel id configured, and a sample_channel id that resolves to nothing. *)
Lemma update_stats_no_channel_witness :
  let w := world None (Ok sample_embed) (Ok tt) (Ok tt) (Ok {| id := 1002 |}) in
  final_id (update_stats 0 w (Some 1001%Z)) = Some 1001%Z
  /\ sends (update_stats 42 w (Some 1001%Z)) = O.
Proof.
  intros w. split.
  - apply (@update_stats_no_channel 0 w (Some 1001%Z)). left. reflexivity.
  - apply (@update_stats_no_channel 42 w (Some 1001%Z)). right. reflexivity.
Defined.

End PublisherRuns.

(* ================================================================== *)
(** ** More on the periodic task *)

Section PublisherMore.
Import Publisher Runs.

Variable cid : Z.
Variable w : World.
Variable st : option Z.

Local Ltac run_cases :=
  unfold update_stats, handle_edit_error, send_replacement;
  destruct (cid =? 0)%Z eqn:Hcid; [| destruct (get_channel w cid) as [channel |] eqn:Hc;
    [destruct (stats_embed w) as [embed | ee] eqn:He;
      [destruct (truthy st) eqn:Ht;
        [destruct (fetch_message w channel (the_id st)) as [[] | ef] eqn:Hf;
          [destruct (edit w {| id := the_id st |} embed) as [[] | ed] eqn:Hed;
            [| destruct ed; destruct (send w channel embed) as [m | es] eqn:Hs]
          | destruct ef; destruct (send w channel embed) as [m | es] eqn:Hs]
        | destruct (send w channel embed) as [m | es] eqn:Hs; [| destruct es]]
      |]
    |]].

(** X1.  The tracked id changes only through a send that succeeds: after a run
    it is what it was, or it is the id of the message a send of this run
    gave. *)
Theorem update_stats_id_changes_only_by_send :
  let r := update_stats cid w st in
  final_id r = st
  \/ exists channel embed m,
       get_channel w cid = Some channel
       /\ stats_embed w = Ok embed
       /\ send w channel embed = Ok m
       /\ final_id r = Some (id m)
       /\ sends r = 1%nat
       /\ how r = Returned.
Proof.
  cbv zeta. run_cases; cbn;
    try (left; reflexivity);
    right; exists channel, embed, m; repeat split; assumption.
Qed.

Lemma truthy_some :
  truthy st = true -> st = Some (the_id st) /\ the_id st <> 0%Z.
Proof.
  destruct st as [n |]; cbn; [| discriminate].
  destruct (n =? 0)%Z eqn:Hn; cbn; [discriminate |].
  intros _. apply Z.eqb_neq in Hn. split; [reflexivity | exact Hn].
Qed.

Lemma touched_is_tracked (mid : Z) :
  In mid (fetched_ids (update_stats cid w st)
          ++ edited_ids (update_stats cid w st)) ->
  st = Some mid /\ mid <> 0%Z /\ fetched_ids (update_stats cid w st) = [mid].
Proof.
  run_cases; cbn; intros H; try contradiction;
    destruct (truthy_some Ht) as [H1 H2];
    repeat (destruct H as [H | H]; try contradiction);
    rewrite <- H; repeat split; assumption.
Qed.

(** X2.  A run fetches and edits no other message than the tracked one: when
    it fetches or edits a message, that message is the tracked one, the
    fetch of it is the first thing the run does, and the run makes no
    other fetch or edit, or else the fetch succeeded and the next thing
    the run does is the one edit of that message. *)
Theorem update_stats_touches_only_tracked (mid : Z) :
  let r := update_stats cid w st in
  In mid (fetched_ids r ++ edited_ids r) ->
  st = Some mid /\ mid <> 0%Z /\ fetched_ids r = [mid]
  /\ exists channel embed rest,
       get_channel w cid = Some channel
       /\ stats_embed w = Ok embed
       /\ events r = FetchMessage (channel_id channel) mid :: rest
       /\ ((touches r = [FetchMessage (channel_id channel) mid]
            /\ edited_ids r = [])
           \/ (fetch_message w channel mid = Ok tt
               /\ (exists rest', rest = EditMessage mid embed :: rest')
               /\ touches r = [FetchMessage (channel_id channel) mid;
                               EditMessage mid embed]
               /\ edited_ids r = [mid])).
Proof.
  cbv zeta. run_cases; cbn; intros H; try contradiction;
    destruct (truthy_some Ht) as [H1 H2];
    repeat (destruct H as [H | H]; try contradiction);
    subst mid;
    (split; [exact H1 |]); (split; [exact H2 |]);
    (split; [reflexivity |]);
    exists channel, embed; eexists;
    (split; [reflexivity |]); (split; [reflexivity |]);
    (split; [reflexivity |]);
    first [ left; split; reflexivity
          | right; split; [assumption |];
            split; [eexists; reflexivity |]; split; reflexivity ].
Qed.

(** X4.  When an exception leaves a run: the embed could not be built; or a
    call failed with an exception that is no [discord.HTTPException]; or,
    the tracked message being gone, the send of the replacement failed,
    with whatever exception. *)
Theorem update_stats_raises_iff (e : exn) :
  how (update_stats cid w st) = Raised e <->
  cid <> 0%Z
  /\ ((exists channel,
         get_channel w cid = Some channel /\ stats_embed w = Err e)
      \/ (truthy st = false
          /\ send_fails cid w e /\ is_HTTPException e = false)
      \/ (truthy st = true
          /\ edit_fails cid w (the_id st) e /\ is_HTTPException e = false)
      \/ (truthy st = true
          /\ edit_fails cid w (the_id st) NotFound /\ send_fails cid w e)).
Proof.
  split.
  - run_cases; cbn; intros H; try discriminate; injection H as <-;
      (split; [apply Z.eqb_neq; assumption |]);
      first
        [ solve [left; exists channel; split; reflexivity]
        | solve [right; left; split; [reflexivity |];
                 split; [exists channel, embed; repeat split; assumption
                        | reflexivity]]
        | solve [right; right; left; split; [reflexivity |];
                 split; [exists channel, embed;
                         split; [assumption |]; split; [assumption |];
                         first [left; assumption | right; split; assumption]
                        | reflexivity]]
        | solve [right; right; right; split; [reflexivity |];
                 split; [exists channel, embed;
                         split; [assumption |]; split; [assumption |];
                         first [left; assumption | right; split; assumption]
                        | exists channel, embed; repeat split; assumption]] ].
  - intros [Hcid0 H]. apply Z.eqb_neq in Hcid0.
    unfold update_stats. rewrite Hcid0.
    destruct H as [(channel & Hc & He)
                  | [(Ht & (channel & embed & Hc & He & Hs) & Hh)
                    | [(Ht & (channel & embed & Hc & He & Hfail) & Hh)
                      | (Ht & (channel & embed & Hc & He & Hfail)
                         & (channel' & embed' & Hc' & He' & Hs))]]].
    + rewrite Hc, He. reflexivity.
    + rewrite Hc, He, Ht, Hs. destruct e; try discriminate. reflexivity.
    + rewrite Hc, He, Ht.
      destruct Hfail as [Hf | [Hf Hed]]; rewrite Hf;
        [| cbn [id]; rewrite Hed]; destruct e; try discriminate; reflexivity.
    + rewrite Hc in Hc'. injection Hc' as <-.
      rewrite He in He'. injection He' as <-.
      rewrite Hc, He, Ht.
      destruct Hfail as [Hf | [Hf Hed]]; rewrite Hf;
        [| cbn [id]; rewrite Hed]; cbn; unfold send_replacement;
        rewrite Hs; reflexivity.
Qed.

(** X3.  The calls of one run, in order.  A run makes no call; or, without
    active message, one send; or, with an active message, the fetch alone
    (it failed, not with [NotFound]), the fetch then the send (the fetch
    failed with [NotFound]), the fetch then the edit (the fetch succeeded
    and the edit did not fail with [NotFound]), or the fetch, the edit and
    the send (the fetch succeeded, the edit failed with [NotFound]).  So:
    at most one fetch, one edit and one send; an edit only after a fetch;
    without active message no fetch and no edit; with an active message a
    send only when the fetch or the edit failed with [NotFound]. *)
Theorem update_stats_call_budget :
  let r := update_stats cid w st in
  let mid := the_id st in
  (calls r = []
   \/ exists channel embed,
        get_channel w cid = Some channel
        /\ stats_embed w = Ok embed
        /\ let fetched := FetchMessage (channel_id channel) mid in
           let edited := EditMessage mid embed in
           let sent := SendMessage (channel_id channel) embed in
           (truthy st = false /\ calls r = [sent])
           \/ (truthy st = true
               /\ (exists e, fetch_message w channel mid = Err e
                             /\ e <> NotFound)
               /\ calls r = [fetched])
           \/ (truthy st = true
               /\ fetch_message w channel mid = Err NotFound
               /\ calls r = [fetched; sent])
           \/ (truthy st = true
               /\ fetch_message w channel mid = Ok tt
               /\ edit w {| id := mid |} embed <> Err NotFound
               /\ calls r = [fetched; edited])
           \/ (truthy st = true
               /\ fetch_message w channel mid = Ok tt
               /\ edit w {| id := mid |} embed = Err NotFound
               /\ calls r = [fetched; edited; sent]))
  /\ (fetches r <= 1)%nat
  /\ (edits r <= fetches r)%nat
  /\ (sends r <= 1)%nat
  /\ (truthy st = false -> fetches r = O /\ edits r = O)
  /\ (truthy st = true -> sends r = 1%nat ->
      edit_fails cid w (the_id st) NotFound).
Proof.
  cbv zeta. split.
  - run_cases; cbn;
      try (left; reflexivity);
      right; exists channel, embed;
      (split; [reflexivity |]); (split; [reflexivity |]);
      first
        [ left; split; reflexivity
        | right; left; split; [reflexivity |];
          split; [eexists; split; [eassumption | discriminate] | reflexivity]
        | right; right; left; split; [reflexivity |];
          split; [assumption | reflexivity]
        | right; right; right; left; split; [reflexivity |];
          split; [assumption |];
          split; [rewrite Hed; discriminate | reflexivity]
        | right; right; right; right; split; [reflexivity |];
          split; [assumption |]; split; [assumption | reflexivity] ].
  - run_cases; cbn; repeat split; try lia; try discriminate;
      intros _ _; exists channel, embed; repeat split; try assumption;
      first [left; assumption | right; split; assumption].
Qed.

End PublisherMore.

Section PublisherSequences.
Import Publisher Runs.

(** The runs up to the first exception are among those of [runs]. *)
Lemma ticks_firstn_runs (cid : Z) (ws : list World) (st : option Z) :
  exists n, ticks cid ws st = firstn n (runs cid ws st).
Proof.
  revert st. induction ws as [| w ws IH]; intros st; cbn [ticks runs].
  - exists O. reflexivity.
  - destruct (how (update_stats cid w st)).
    + destruct (IH (final_id (update_stats cid w st))) as [n Hn].
      exists (S n). cbn [firstn]. rewrite Hn. reflexivity.
    + exists 1%nat. reflexivity.
Qed.

(** X5.  Over any sequence of runs, whatever the outside does and whether
    the runs return or raise, each run fetches and edits only the message
    whose id the run before it left in the global: so it is for the first
    [n] runs, for every [n]. *)
Theorem runs_edits_follow (cid : Z) (ws : list World) (st : option Z)
    (n : nat) :
  edits_follow st (firstn n (runs cid ws st)).
Proof.
  revert st n. induction ws as [| w ws IH]; intros st n; cbn [runs].
  - destruct n; exact I.
  - destruct n as [| n]; cbn [firstn edits_follow]; [exact I |].
    split; [| apply IH].
    intros mid H. apply (touched_is_tracked cid w st mid H).
Qed.

End PublisherSequences.

(* ================================================================== *)
(** ** More on the patterns and the uptime resolver *)

Section PatternFacts.
Import Shape.

Lemma strip_prefix_app (p r : str) : strip_prefix p (p ++ r) = Some r.
Proof.
  induction p as [| a p IH]; cbn; [reflexivity |].
  rewrite N.eqb_refl. exact IH.
Qed.

Lemma strip_prefix_inv (p s r : str) : strip_prefix p s = Some r -> s = p ++ r.
Proof.
  revert s. induction p as [| a p IH]; intros s; cbn.
  - intros [= ->]. reflexivity.
  - destruct s as [| b s]; [discriminate |].
    destruct (N.eqb a b) eqn:E; [| discriminate].
    apply N.eqb_eq in E. subst b. intros H. rewrite (IH _ H). reflexivity.
Qed.

Lemma take_while_app_stop (f : N -> bool) (g rest : str) :
  forallb f g = true ->
  match rest with [] => True | c :: _ => f c = false end ->
  take_while f (g ++ rest) = g.
Proof.
  intros Hg Hrest. induction g as [| c g IH].
  - destruct rest as [| c rest]; cbn; [reflexivity |]. rewrite Hrest. reflexivity.
  - cbn in Hg. apply andb_prop in Hg as [Hc Hg].
    cbn. rewrite Hc, (IH Hg). reflexivity.
Qed.

Lemma take_while_split (f : N -> bool) (s : str) :
  exists rest,
    s = take_while f s ++ rest
    /\ forallb f (take_while f s) = true
    /\ match rest with [] => True | c :: _ => f c = false end.
Proof.
  induction s as [| c s (rest & Hs & Hall & Hrest)]; cbn.
  - exists []. repeat split.
  - destruct (f c) eqn:Hc.
    + exists rest. cbn. rewrite Hc, Hall. repeat split; [| exact Hrest].
      f_equal. exact Hs.
    + exists (c :: s). repeat split. exact Hc.
Qed.

Lemma dot_false (c : N) : dot c = false <-> c = NEWLINE.
Proof.
  unfold dot. destruct (N.eqb_spec c NEWLINE); cbn; split; congruence.
Qed.

(** [(.+)]: a non-empty run without newline that goes to the end of the
    line. *)
Lemma dot_plus_greedy_iff (s g : str) :
  dot_plus_greedy s = Some g <->
  g <> [] /\ single_line g = true
  /\ exists rest, s = g ++ rest /\ (rest = [] \/ exists r, rest = NEWLINE :: r).
Proof.
  unfold dot_plus_greedy, single_line. split.
  - destruct (take_while_split dot s) as (rest & Hs & Hall & Hrest).
    destruct (take_while dot s) as [| c t] eqn:E; [discriminate |].
    intros [= <-]. split; [discriminate |]. split; [exact Hall |].
    exists rest. split; [exact Hs |].
    destruct rest as [| d rest]; [left; reflexivity |].
    right. exists rest. apply dot_false in Hrest. subst d. reflexivity.
  - intros (Hne & Hall & rest & -> & Hrest).
    rewrite take_while_app_stop;
      [destruct g; [contradiction Hne; reflexivity | reflexivity]
      | exact Hall |].
    destruct Hrest as [-> | [r ->]]; [exact I | reflexivity].
Qed.

Lemma lazy_rest_sound (stop : N -> bool) (s g : str) :
  lazy_rest stop s = Some g ->
  forallb (lazy_char stop) g = true
  /\ exists c rest, s = g ++ c :: rest /\ stop c = true.
Proof.
  unfold lazy_char. revert g. induction s as [| d s IH]; intros g; cbn.
  - discriminate.
  - destruct (stop d) eqn:Hd.
    + intros [= <-]. split; [reflexivity |].
      exists d, s. split; [reflexivity | exact Hd].
    + destruct (dot d) eqn:Hdot; [| discriminate].
      destruct (lazy_rest stop s) as [g' |]; [| discriminate].
      cbn. intros [= <-].
      destruct (IH g' eq_refl) as (Hall & c & rest & -> & Hc).
      split; [cbn; rewrite Hd, Hdot, Hall; reflexivity |].
      exists c, rest. split; [reflexivity | exact Hc].
Qed.

Lemma lazy_rest_complete (stop : N -> bool) (g : str) (c : N) (rest : str) :
  forallb (lazy_char stop) g = true -> stop c = true ->
  lazy_rest stop (g ++ c :: rest) = Some g.
Proof.
  unfold lazy_char. intros Hall Hc. induction g as [| a g IH]; cbn.
  - rewrite Hc. reflexivity.
  - cbn in Hall. apply andb_prop in Hall as [Ha Hall].
    apply andb_prop in Ha as [Hs Hd]. apply negb_true_iff in Hs.
    rewrite Hs, Hd, (IH Hall). reflexivity.
Qed.

Lemma lazy_rest_iff (stop : N -> bool) (s g : str) :
  lazy_rest stop s = Some g <->
  forallb (lazy_char stop) g = true
  /\ exists c rest, s = g ++ c :: rest /\ stop c = true.
Proof.
  split; [apply lazy_rest_sound |].
  intros (Hall & c & rest & -> & Hc). apply lazy_rest_complete; assumption.
Qed.

(** [(.+?)] before a character of [stop]: one character that is no
    newline, then characters that are neither newline nor in [stop], up
    to the first character of [stop]. *)
Lemma dot_plus_lazy_iff (stop : N -> bool) (s g : str) :
  dot_plus_lazy stop s = Some g <->
  exists a g' c rest,
    g = a :: g' /\ s = g ++ c :: rest
    /\ dot a = true /\ forallb (lazy_char stop) g' = true /\ stop c = true.
Proof.
  unfold dot_plus_lazy. destruct s as [| a s].
  - split; [discriminate |].
    intros (a & g' & c & rest & -> & H & _). discriminate.
  - destruct (dot a) eqn:Ha.
    + split.
      * destruct (lazy_rest stop s) as [g' |] eqn:E; [| discriminate].
        cbn. intros [= <-]. apply lazy_rest_iff in E as (Hall & c & rest & -> & Hc).
        exists a, g', c, rest. repeat split; assumption.
      * intros (a' & g' & c & rest & -> & Hs & _ & Hall & Hc).
        cbn in Hs. injection Hs as <- ->.
        assert (E : lazy_rest stop (g' ++ c :: rest) = Some g')
          by (apply lazy_rest_iff; split; [exact Hall | exists c, rest; auto]).
        rewrite E. reflexivity.
    + split; [discriminate |].
      intros (a' & g' & c & rest & -> & Hs & Ha' & _).
      cbn in Hs. injection Hs as <- _. congruence.
Qed.

(** [re.search]: the leftmost position where the pattern matches. *)
Lemma re_search_iff (m : str -> option str) (s g : str) :
  re_search m s = Some g <->
  exists pre suf,
    s = pre ++ suf /\ no_match_before m pre suf = true /\ m suf = Some g.
Proof.
  split.
  - induction s as [| c s IH]; cbn [re_search].
    + destruct (m []) eqn:E; [| discriminate].
      intros [= <-]. exists [], []. repeat split. exact E.
    + destruct (m (c :: s)) eqn:E.
      * intros [= <-]. exists [], (c :: s). repeat split. exact E.
      * intros H. destruct (IH H) as (pre & suf & -> & Hno & Hm).
        exists (c :: pre), suf. repeat split; [| exact Hm].
        cbn [no_match_before app]. rewrite E. exact Hno.
  - intros (pre & suf & -> & Hno & Hm).
    rewrite (re_search_skip _ _ _ Hno). apply re_search_here, Hm.
Qed.

Lemma line_end_cases (rest : str) :
  line_end rest = true <-> rest = [] \/ exists r, rest = NEWLINE :: r.
Proof.
  destruct rest as [| c r]; cbn.
  - split; auto.
  - split.
    + intros H. apply N.eqb_eq in H. subst c. right. exists r. reflexivity.
    + intros [H | [r' H]]; [discriminate |]. injection H as -> _. reflexivity.
Qed.

Lemma greedy_group_cases (g : str) :
  greedy_group g = true <-> g <> [] /\ single_line g = true.
Proof.
  destruct g; cbn; split.
  - discriminate.
  - intros [H _]. contradiction H. reflexivity.
  - intros H. split; [discriminate | exact H].
  - intros [_ H]. exact H.
Qed.

Lemma lazy_group_cases (stop : N -> bool) (g : str) :
  lazy_group stop g = true <->
  exists a g', g = a :: g' /\ dot a = true
               /\ forallb (lazy_char stop) g' = true.
Proof.
  destruct g as [| a g']; cbn; split.
  - discriminate.
  - intros (a & g' & H & _). discriminate.
  - intros H. apply andb_prop in H as [H1 H2]. exists a, g'. auto.
  - intros (a' & g'' & [= <- <-] & H1 & H2). rewrite H1, H2. reflexivity.
Qed.

(** The three patterns at one position. *)
Lemma re_Uptime_iff (s g : str) :
  re_Uptime s = Some g <->
  exists rest,
    s = py "Uptime: " ++ g ++ rest
    /\ greedy_group g = true /\ line_end rest = true.
Proof.
  unfold re_Uptime, then_match. split.
  - destruct (strip_prefix (py "Uptime: ") s) as [r |] eqn:E; [| discriminate].
    apply strip_prefix_inv in E. subst s. intros H.
    apply dot_plus_greedy_iff in H as (Hne & Hall & rest & -> & Hrest).
    exists rest. split; [reflexivity |].
    split; [apply greedy_group_cases; auto | apply line_end_cases, Hrest].
  - intros (rest & -> & Hg & Hrest). rewrite strip_prefix_app.
    apply greedy_group_cases in Hg as [Hne Hall].
    apply dot_plus_greedy_iff. split; [exact Hne |]. split; [exact Hall |].
    exists rest. split; [reflexivity | apply line_end_cases, Hrest].
Qed.

Lemma re_up_iff (stop : N -> bool) (s g : str) :
  then_match (py "up ") (dot_plus_lazy stop) s = Some g <->
  exists c rest,
    s = py "up " ++ g ++ c :: rest
    /\ lazy_group stop g = true /\ stop c = true.
Proof.
  unfold then_match. split.
  - destruct (strip_prefix (py "up ") s) as [r |] eqn:E; [| discriminate].
    apply strip_prefix_inv in E. subst s. intros H.
    apply dot_plus_lazy_iff in H as (a & g' & c & rest & -> & -> & Ha & Hall & Hc).
    exists c, rest. split; [reflexivity |]. split; [| exact Hc].
    apply lazy_group_cases. exists a, g'. auto.
  - intros (c & rest & -> & Hg & Hc). rewrite strip_prefix_app.
    apply lazy_group_cases in Hg as (a & g' & -> & Ha & Hall).
    apply dot_plus_lazy_iff. exists a, g', c, rest. auto.
Qed.

(** X6.  What [re.search(r'Uptime: (.+)', s)] finds: [g] is the rest of the
    line after the leftmost [Uptime: ] that has something after it on its
    line. *)
Theorem re_Uptime_search_iff (s g : str) :
  re_search re_Uptime s = Some g <->
  exists pre rest,
    s = pre ++ py "Uptime: " ++ g ++ rest
    /\ no_match_before re_Uptime pre (py "Uptime: " ++ g ++ rest) = true
    /\ greedy_group g = true
    /\ line_end rest = true.
Proof.
  rewrite re_search_iff. split.
  - intros (pre & suf & -> & Hno & Hm).
    apply re_Uptime_iff in Hm as (rest & -> & Hg & Hrest).
    exists pre, rest. auto.
  - intros (pre & rest & -> & Hno & Hg & Hrest).
    exists pre, (py "Uptime: " ++ g ++ rest). repeat split; [exact Hno |].
    apply re_Uptime_iff. exists rest. auto.
Qed.

(** X7.  What the two [up ...] patterns find: [g] is the text after the
    leftmost [up ] that is followed, on its line, by some text and then a
    comma (or, for the first pattern, the end of the line); [g] goes up to
    the first such comma or line end after its first character. *)
Theorem re_up_search_iff (s g : str) :
  (re_search re_up_comma_or_newline s = Some g <->
   exists pre c rest,
     s = pre ++ py "up " ++ g ++ c :: rest
     /\ no_match_before re_up_comma_or_newline pre
          (py "up " ++ g ++ c :: rest) = true
     /\ lazy_group comma_or_newline g = true
     /\ (c = COMMA \/ c = NEWLINE))
  /\ (re_search re_up_comma s = Some g <->
      exists pre rest,
        s = pre ++ py "up " ++ g ++ COMMA :: rest
        /\ no_match_before re_up_comma pre
             (py "up " ++ g ++ COMMA :: rest) = true
        /\ lazy_group comma g = true).
Proof.
  split; rewrite re_search_iff; split.
  - intros (pre & suf & -> & Hno & Hm).
    apply re_up_iff in Hm as (c & rest & -> & Hg & Hc).
    exists pre, c, rest. repeat split; try assumption.
    unfold comma_or_newline in Hc. apply orb_prop in Hc as [Hc | Hc];
      apply N.eqb_eq in Hc; auto.
  - intros (pre & c & rest & -> & Hno & Hg & Hc).
    exists pre, (py "up " ++ g ++ c :: rest). repeat split; [exact Hno |].
    apply re_up_iff. exists c, rest. repeat split; [exact Hg |].
    destruct Hc as [-> | ->]; reflexivity.
  - intros (pre & suf & -> & Hno & Hm).
    apply re_up_iff in Hm as (c & rest & -> & Hg & Hc).
    apply N.eqb_eq in Hc. subst c. exists pre, rest. auto.
  - intros (pre & rest & -> & Hno & Hg).
    exists pre, (py "up " ++ g ++ COMMA :: rest). repeat split; [exact Hno |].
    apply re_up_iff. exists COMMA, rest. auto.
Qed.

End PatternFacts.

Section StripFacts.
Import Shape.

Lemma lstrip_id (s : str) : first_is_space s = false -> lstrip s = s.
Proof. destruct s as [| c s]; cbn; [reflexivity |]. intros ->. reflexivity. Qed.

Lemma first_is_space_lstrip (s : str) : first_is_space (lstrip s) = false.
Proof.
  induction s as [| c s IH]; cbn; [reflexivity |].
  destruct (isspace c) eqn:E; [exact IH |]. cbn. exact E.
Qed.

Lemma lstrip_app_last (l : str) (c : N) :
  isspace c = false -> lstrip (l ++ [c]) = lstrip l ++ [c].
Proof.
  intros Hc. induction l as [| a l IH]; cbn.
  - rewrite Hc. reflexivity.
  - destruct (isspace a); [exact IH | reflexivity].
Qed.

Lemma rstrip_cons (c : N) (s : str) :
  isspace c = false -> rstrip (c :: s) = c :: rstrip s.
Proof.
  intros Hc. unfold rstrip. cbn [rev].
  rewrite lstrip_app_last by exact Hc. rewrite rev_app_distr. reflexivity.
Qed.

Lemma forallb_lstrip (f : N -> bool) (s : str) :
  forallb f s = true -> forallb f (lstrip s) = true.
Proof.
  induction s as [| c s IH]; cbn; [reflexivity |].
  intros H. destruct (isspace c); [| exact H].
  apply andb_prop in H as [_ H]. apply IH, H.
Qed.

Lemma forallb_rev_true (f : N -> bool) (s : str) :
  forallb f s = true -> forallb f (rev s) = true.
Proof.
  rewrite !forallb_forall. intros H x Hx. apply H, in_rev, Hx.
Qed.

Lemma forallb_strip (f : N -> bool) (s : str) :
  forallb f s = true -> forallb f (strip s) = true.
Proof.
  intros H. unfold strip, rstrip.
  apply forallb_rev_true, forallb_lstrip, forallb_rev_true, forallb_lstrip, H.
Qed.

(** [s.strip()] has no white space at either end. *)
Lemma trimmed_strip (s : str) : trimmed (strip s) = true.
Proof.
  unfold trimmed, strip. apply andb_true_intro. split; apply negb_true_iff.
  - pose proof (first_is_space_lstrip s) as H.
    destruct (lstrip s) as [| c t]; [reflexivity |]. cbn in H.
    rewrite rstrip_cons by exact H. cbn. exact H.
  - unfold rstrip. rewrite rev_involutive. apply first_is_space_lstrip.
Qed.

(** A string without white space at its ends is its own [strip()]. *)
Lemma strip_trimmed (s : str) : trimmed s = true -> strip s = s.
Proof.
  unfold trimmed, strip, rstrip. intros H. apply andb_prop in H as [H1 H2].
  apply negb_true_iff in H1, H2.
  rewrite (lstrip_id s) by exact H1. rewrite (lstrip_id (rev s)) by exact H2.
  apply rev_involutive.
Qed.

Lemma remove_from_absent (pat s : str) :
  contains pat s = false -> remove_from pat O s = s.
Proof.
  induction s as [| c s IH]; cbn [contains remove_from]; [reflexivity |].
  intros H. apply orb_false_elim in H as [H1 H2].
  rewrite H1, (IH H2). reflexivity.
Qed.

End StripFacts.

Section UptimeMore.
Import Uptime Shape.

(** X8.  When the primary tool completes and the leftmost [Uptime: ] with text
    after it on its line is followed by [text] up to the end of the line,
    the resolver returns [text] without the white space at its ends, and
    runs nothing else. *)
Theorem get_server_uptime_uptime_line (h : Host) (pre text rest : str) :
  subprocess_run h NEOFETCH = Completed (pre ++ py "Uptime: " ++ text ++ rest) ->
  no_match_before re_Uptime pre (py "Uptime: " ++ text ++ rest) = true ->
  greedy_group text = true ->
  line_end rest = true ->
  get_server_uptime h = ([Run NEOFETCH], Return (strip text)).
Proof.
  intros Hrun Hno Hg Hrest. unfold get_server_uptime. rewrite Hrun.
  assert (E : re_search re_Uptime (pre ++ py "Uptime: " ++ text ++ rest)
              = Some text).
  { apply re_search_iff. exists pre, (py "Uptime: " ++ text ++ rest).
    repeat split; [exact Hno |]. apply re_Uptime_iff. exists rest. auto. }
  rewrite E. reflexivity.
Qed.

(** X9.  When the primary tool completes, its output has no [Uptime: ] match,
    and the leftmost [up ] with a match is followed by [text] and then a
    comma or the end of the line, the resolver returns [text] without the
    white space at its ends. *)
Theorem get_server_uptime_up_duration (h : Host) (pre text : str) (c : N)
    (rest : str) :
  subprocess_run h NEOFETCH
  = Completed (pre ++ py "up " ++ text ++ c :: rest) ->
  re_search re_Uptime (pre ++ py "up " ++ text ++ c :: rest) = None ->
  no_match_before re_up_comma_or_newline pre (py "up " ++ text ++ c :: rest)
  = true ->
  lazy_group comma_or_newline text = true ->
  c = COMMA \/ c = NEWLINE ->
  get_server_uptime h = ([Run NEOFETCH], Return (strip text)).
Proof.
  intros Hrun Hnone Hno Hg Hc. unfold get_server_uptime. rewrite Hrun, Hnone.
  assert (E : re_search re_up_comma_or_newline
                (pre ++ py "up " ++ text ++ c :: rest) = Some text).
  { apply re_search_iff. exists pre, (py "up " ++ text ++ c :: rest).
    repeat split; [exact Hno |]. apply re_up_iff. exists c, rest.
    repeat split; [exact Hg |]. destruct Hc as [-> | ->]; reflexivity. }
  rewrite E. reflexivity.
Qed.

(** X10.  On macOS, when the primary tool cannot be run and the output of
    [uptime] has, after its leftmost matching [up ], the text [text] and
    then a comma, the resolver returns [text] without the white space at
    its ends, having run the two commands. *)
Theorem get_server_uptime_darwin (h : Host) (e : exn) (pre text rest : str) :
  subprocess_run h NEOFETCH = Raises e ->
  is_SubprocessError_or_FileNotFoundError e = true ->
  platform_system h = py "Darwin" ->
  subprocess_run h UPTIME = Completed (pre ++ py "up " ++ text ++ COMMA :: rest) ->
  no_match_before re_up_comma pre (py "up " ++ text ++ COMMA :: rest) = true ->
  lazy_group comma text = true ->
  snd (get_server_uptime h) = Return (strip text)
  /\ commands (fst (get_server_uptime h)) = [NEOFETCH; UPTIME].
Proof.
  intros Hrun He Hsys Hup Hno Hg. unfold get_server_uptime, platform_fallback.
  rewrite Hrun, He, Hsys. cbn [str_eqb]. 
  change (str_eqb (py "Darwin") (py "Linux")) with false.
  change (str_eqb (py "Darwin") (py "Darwin")) with true.
  cbv iota. rewrite Hup.
  assert (E : re_search re_up_comma (pre ++ py "up " ++ text ++ COMMA :: rest)
              = Some text).
  { apply re_search_iff. exists pre, (py "up " ++ text ++ COMMA :: rest).
    repeat split; [exact Hno |]. apply re_up_iff. exists COMMA, rest. auto. }
  rewrite E. split; reflexivity.
Qed.

(** X11.  On Linux, when the primary tool cannot be run and [uptime -p] prints
    [up ], a text and a newline, the resolver returns the text, provided
    the text is not empty, has no white space at its ends and does not
    itself contain [up ]. *)
Theorem get_server_uptime_linux (h : Host) (e : exn) (text : str) :
  subprocess_run h NEOFETCH = Raises e ->
  is_SubprocessError_or_FileNotFoundError e = true ->
  platform_system h = py "Linux" ->
  subprocess_run h UPTIME_P = Completed (py "up " ++ text ++ [NEWLINE]) ->
  text <> [] ->
  trimmed text = true ->
  contains (py "up ") text = false ->
  snd (get_server_uptime h) = Return text
  /\ commands (fst (get_server_uptime h)) = [NEOFETCH; UPTIME_P].
Proof.
  intros Hrun He Hsys Hup Hne Htrim Hcont.
  unfold get_server_uptime, platform_fallback.
  rewrite Hrun, He, Hsys.
  change (str_eqb (py "Linux") (py "Linux")) with true. cbv iota.
  rewrite Hup.
  assert (Hstrip : strip (py "up " ++ text ++ [NEWLINE]) = py "up " ++ text).
  { unfold trimmed in Htrim. apply andb_prop in Htrim as [_ Hlast].
    apply negb_true_iff in Hlast.
    unfold strip. rewrite lstrip_id by reflexivity.
    unfold rstrip. rewrite app_assoc, rev_app_distr. cbn [rev app].
    change (lstrip (NEWLINE :: rev (py "up " ++ text)))
      with (lstrip (rev (py "up " ++ text))).
    rewrite lstrip_id; [apply rev_involutive |].
    rewrite rev_app_distr.
    destruct (rev text) as [| c t] eqn:E; [| exact Hlast].
    apply (f_equal (@rev N)) in E. rewrite rev_involutive in E.
    contradiction Hne. }
  rewrite Hstrip. unfold replace_with_empty.
  change (remove_from (py "up ") 0 (py "up " ++ text))
    with (remove_from (py "up ") 0 text).
  rewrite remove_from_absent by exact Hcont. split; reflexivity.
Qed.

Lemma str_eqb_eq (a b : str) : str_eqb a b = true <-> a = b.
Proof.
  unfold str_eqb. destruct (list_eq_dec N.eq_dec a b); split; congruence.
Qed.

Lemma greedy_group_single_line (g : str) :
  greedy_group g = true -> single_line g = true.
Proof. intros H. apply greedy_group_cases in H as [_ H]. exact H. Qed.

Lemma lazy_group_single_line (stop : N -> bool) (g : str) :
  lazy_group stop g = true -> single_line g = true.
Proof.
  intros H. apply lazy_group_cases in H as (a & g' & -> & Ha & Hall).
  unfold single_line. cbn. rewrite Ha. cbn.
  rewrite forallb_forall in *. intros x Hx. specialize (Hall x Hx).
  unfold lazy_char in Hall. apply andb_prop in Hall as [_ H]. exact H.
Qed.

Lemma stripped_group_shape (g : str) :
  single_line g = true ->
  single_line (strip g) = true /\ trimmed (strip g) = true.
Proof.
  intros H. split; [apply forallb_strip, H | apply trimmed_strip].
Qed.

(** X12.  Unless it comes from [uptime -p] on Linux, the string the resolver
    returns is a single line without white space at its ends. *)
Theorem get_server_uptime_result_shape (h : Host) (v : str) :
  platform_system h <> py "Linux"
  \/ (exists output, subprocess_run h NEOFETCH = Completed output) ->
  snd (get_server_uptime h) = Return v ->
  single_line v = true /\ trimmed v = true.
Proof.
  intros Hcase. unfold get_server_uptime.
  destruct (subprocess_run h NEOFETCH) as [output | e] eqn:Hrun.
  - destruct (re_search re_Uptime output) as [g |] eqn:E1.
    + cbn. intros [= <-]. apply stripped_group_shape.
      apply re_search_iff in E1 as (pre & suf & _ & _ & Hm).
      apply re_Uptime_iff in Hm as (rest & _ & Hg & _).
      apply greedy_group_single_line, Hg.
    + destruct (re_search re_up_comma_or_newline output) as [g |] eqn:E2.
      * cbn. intros [= <-]. apply stripped_group_shape.
        apply re_search_iff in E2 as (pre & suf & _ & _ & Hm).
        apply re_up_iff in Hm as (c & rest & _ & Hg & _).
        apply (lazy_group_single_line _ _ Hg).
      * cbn. intros [= <-]. split; reflexivity.
  - destruct Hcase as [Hsys | [output Hout]]; [| discriminate].
    destruct (is_SubprocessError_or_FileNotFoundError e); [| discriminate].
    unfold platform_fallback.
    destruct (str_eqb (platform_system h) (py "Linux")) eqn:El.
    { apply str_eqb_eq in El. contradiction. }
    destruct (str_eqb (platform_system h) (py "Darwin")).
    + destruct (subprocess_run h UPTIME) as [stdout | e'].
      * destruct (re_search re_up_comma stdout) as [g |] eqn:E.
        -- cbn. intros [= <-]. apply stripped_group_shape.
           apply re_search_iff in E as (pre & suf & _ & _ & Hm).
           apply re_up_iff in Hm as (c & rest & _ & Hg & _).
           apply (lazy_group_single_line _ _ Hg).
        -- cbn. intros [= <-]. split; reflexivity.
      * cbn. intros [= <-]. split; reflexivity.
    + cbn. intros [= <-]. split; reflexivity.
Qed.

Lemma get_server_uptime_raises_aux (h : Host) (e : exn) :
  snd (get_server_uptime h) = Raise e <->
  subprocess_run h NEOFETCH = Raises e
  /\ is_SubprocessError_or_FileNotFoundError e = false.
Proof.
  unfold get_server_uptime.
  destruct (subprocess_run h NEOFETCH) as [output | e'] eqn:Hrun.
  - split.
    + destruct (re_search re_Uptime output); [discriminate |].
      destruct (re_search re_up_comma_or_newline output); discriminate.
    + intros [H _]. discriminate.
  - destruct (is_SubprocessError_or_FileNotFoundError e') eqn:He'.
    + split.
      * destruct (platform_fallback h) as [evs [v |]]; discriminate.
      * intros [[= ->] H]. congruence.
    + cbn. split.
      * intros [= ->]. auto.
      * intros [[= ->] _]. reflexivity.
Qed.

(** X13.  An exception leaves the resolver exactly when the call of the primary
    tool raises one that is neither a [FileNotFoundError] nor a
    [SubprocessError]; whatever the platform command does, it never makes
    the resolver raise. *)
Theorem get_server_uptime_raises_iff (h : Host) (e : exn) :
  snd (get_server_uptime h) = Raise e <->
  subprocess_run h NEOFETCH = Raises e
  /\ is_SubprocessError_or_FileNotFoundError e = false.
Proof. apply get_server_uptime_raises_aux. Qed.

(** X14.  The commands of one call: the primary tool, and after it at most one
    platform command, run only when the primary tool could not be run:
    [uptime -p] on Linux, [uptime] on macOS. *)
Theorem get_server_uptime_commands (h : Host) :
  let cs := commands (fst (get_server_uptime h)) in
  cs = [NEOFETCH]
  \/ (exists e,
        subprocess_run h NEOFETCH = Raises e
        /\ is_SubprocessError_or_FileNotFoundError e = true
        /\ ((cs = [NEOFETCH; UPTIME_P] /\ platform_system h = py "Linux")
            \/ (cs = [NEOFETCH; UPTIME] /\ platform_system h = py "Darwin"))).
Proof.
  cbv zeta. unfold get_server_uptime.
  destruct (subprocess_run h NEOFETCH) as [output | e] eqn:Hrun.
  - left. destruct (re_search re_Uptime output); [reflexivity |].
    destruct (re_search re_up_comma_or_newline output); reflexivity.
  - destruct (is_SubprocessError_or_FileNotFoundError e) eqn:He;
      [| left; reflexivity].
    pose proof (platform_fallback_commands h) as Hc.
    destruct (platform_fallback h) as [evs r]. cbn [fst] in Hc.
    cbn [fst commands flat_map app]. fold (commands evs). rewrite Hc.
    destruct (str_eqb (platform_system h) (py "Linux")) eqn:El.
    + right. exists e. apply str_eqb_eq in El. auto.
    + destruct (str_eqb (platform_system h) (py "Darwin")) eqn:Ed.
      * right. exists e. apply str_eqb_eq in Ed. auto 6.
      * left. reflexivity.
Qed.

End UptimeMore.

(* ================================================================== *)
(** ** The temperature field *)

Section TemperatureFacts.
Import Formatter Temperatures Shape.

Lemma In_lstrip (c : N) (s : str) :
  In c s -> isspace c = false -> In c (lstrip s).
Proof.
  intros Hin Hc. induction s as [| a s IH]; [contradiction |].
  cbn. destruct (isspace a) eqn:Ha; [| exact Hin].
  destruct Hin as [-> | Hin]; [congruence | apply IH, Hin].
Qed.

Lemma In_strip (c : N) (s : str) :
  In c s -> isspace c = false -> In c (strip s).
Proof.
  intros Hin Hc. unfold strip, rstrip.
  apply -> in_rev. apply In_lstrip; [| exact Hc].
  apply -> in_rev. apply In_lstrip; assumption.
Qed.

Lemma temp_text_nil (temps : list (str * list Entry)) :
  temp_text temps = [] <-> readings temps = O.
Proof.
  unfold temp_text, readings. induction temps as [| [sensor entries] temps IH]; cbn.
  - split; reflexivity.
  - rewrite length_app. destruct entries as [| entry entries]; cbn.
    + exact IH.
    + split; [| discriminate]. unfold temp_line.
      destruct (label_or entry sensor); discriminate.
Qed.

Lemma In_degree_temp_text (temps : list (str * list Entry)) :
  readings temps <> O -> In DEGREE_SIGN (temp_text temps).
Proof.
  unfold temp_text, readings. induction temps as [| [sensor entries] temps IH]; cbn.
  - intros H. contradiction H. reflexivity.
  - rewrite length_app. intros H. apply in_or_app.
    destruct entries as [| entry entries]; cbn.
    + right. apply IH. exact H.
    + left. apply in_or_app. left. unfold temp_line.
      rewrite !app_assoc. apply in_or_app. right. left. reflexivity.
Qed.

(** X19.  The block adds the field [Temperatures] exactly when the sensors could
    be read and some sensor has a reading; then it adds this one field,
    inline, and its value is not empty and has no white space at its
    ends. *)
Theorem temperature_fields_iff (temps : option (list (str * list Entry))) :
  (temperature_fields temps = [] <->
   temps = None \/ exists items, temps = Some items /\ readings items = O)
  /\ (forall items,
        temps = Some items -> readings items <> O ->
        exists text,
          temperature_fields temps
          = [{| name := "Temperatures"; value := text; inline := true |}]
          /\ text = strip (temp_text items)
          /\ text <> [] /\ trimmed text = true).
Proof.
  assert (Hsome : forall items, readings items <> O ->
            temperature_fields (Some items)
            = [{| name := "Temperatures"; value := strip (temp_text items);
                  inline := true |}]).
  { intros items Hr. unfold temperature_fields.
    destruct items as [| item items]; [contradiction Hr; reflexivity |].
    destruct (temp_text (item :: items)) eqn:E; [| reflexivity].
    apply temp_text_nil in E. contradiction. }
  split.
  - split.
    + destruct temps as [items |]; [| auto]. intros H. right. exists items.
      split; [reflexivity |].
      destruct (Nat.eq_dec (readings items) O) as [E | E]; [exact E |].
      rewrite (Hsome items E) in H. discriminate.
    + intros [-> | (items & -> & Hr)]; [reflexivity |].
      unfold temperature_fields. destruct items as [| item items]; [reflexivity |].
      apply temp_text_nil in Hr. rewrite Hr. reflexivity.
  - intros items -> Hr. exists (strip (temp_text items)).
    split; [apply Hsome, Hr |]. split; [reflexivity |].
    split; [| apply trimmed_strip].
    assert (Hin : In DEGREE_SIGN (strip (temp_text items)))
      by (apply In_strip; [apply In_degree_temp_text, Hr | reflexivity]).
    intros E. rewrite E in Hin. contradiction.
Qed.

End TemperatureFacts.

(* ================================================================== *)
(** ** The resolver inside the periodic task *)

Section ComposeFacts.
Import Publisher Compose.

(** X20.  With a channel that resolves and the embed built through the
    resolver: a run makes no call to the chat platform and prints nothing
    exactly when the call of the primary tool raised an exception the
    resolver does not catch; the run then ends with that exception
    leaving [update_stats], the tracked id unchanged. *)
Theorem update_stats_silent_iff_resolver_raises (cid : Z) (w : World)
    (st : option Z) (h : Uptime.Host) (fields_of : PyStr.str -> list Formatter.Field)
    (channel : Channel) :
  cid <> 0%Z ->
  get_channel w cid = Some channel ->
  stats_embed w = stats_embed_of h fields_of ->
  let r := update_stats cid w st in
  (events r = [] <->
   exists e, Uptime.subprocess_run h Uptime.NEOFETCH = Uptime.Raises e
             /\ Uptime.is_SubprocessError_or_FileNotFoundError e = false)
  /\ (events r = [] -> how r = Raised OtherError /\ final_id r = st).
Proof.
  intros Hcid Hc He r.
  assert (Hiff : (exists e, snd (Uptime.get_server_uptime h) = Uptime.Raise e)
                 <-> exists e, Uptime.subprocess_run h Uptime.NEOFETCH
                               = Uptime.Raises e
                               /\ Uptime.is_SubprocessError_or_FileNotFoundError e
                                  = false).
  { split; intros [e H]; exists e; apply get_server_uptime_raises_aux, H. }
  rewrite <- Hiff. subst r. unfold update_stats.
  apply Z.eqb_neq in Hcid. rewrite Hcid, Hc, He. unfold stats_embed_of.
  destruct (snd (Uptime.get_server_uptime h)) as [v | e].
  - assert (Hne : forall r', events r' <> [] ->
              (events r' = [] <-> exists e, Uptime.Return v = Uptime.Raise e)
              /\ (events r' = [] -> how r' = Raised OtherError /\ final_id r' = st)).
    { intros r' Hr'. split; [split |]; try contradiction.
      intros [e H]. discriminate. }
    apply Hne. unfold handle_edit_error, send_replacement.
    destruct (truthy st).
    + destruct (fetch_message w channel (the_id st)) as [[] | ef].
      * destruct (edit w {| id := the_id st |} _) as [[] | ed]; [discriminate |].
        destruct ed; try destruct (send w channel _); discriminate.
      * destruct ef; try destruct (send w channel _); discriminate.
    + destruct (send w channel _) as [m | es]; [discriminate |].
      destruct es; discriminate.
  - cbn. split; [split; [intros _; exists e; reflexivity | reflexivity] |].
    intros _. split; reflexivity.
Qed.

End ComposeFacts.

(* ================================================================== *)
(** ** The further theorems on concrete inputs *)

Section PublisherMoreRuns.
Import Publisher Runs Formatter.

(** The tracked message 1001 is fetched and edited. *)
Lemma update_stats_touches_only_tracked_witness :
  let w := world (Some sample_channel) (Ok sample_embed)
                 (Ok tt) (Ok tt) (Err Forbidden) in
  fetched_ids (update_stats 42 w (Some 1001%Z)) = [1001%Z]
  /\ touches (update_stats 42 w (Some 1001%Z))
     = [FetchMessage 42 1001; EditMessage 1001 sample_embed].
Proof.
  intros w. split; [| reflexivity].
  apply (@update_stats_touches_only_tracked 42 w (Some 1001%Z) 1001%Z).
  left. reflexivity.
Defined.

(** A send with the message 1001 active: its fetch failed with
    [NotFound]. *)
Lemma update_stats_call_budget_witness :
  let w := world (Some sample_channel) (Ok sample_embed)
                 (Err NotFound) (Ok tt) (Ok {| id := 1002 |}) in
  sends (update_stats 42 w (Some 1001%Z)) = 1%nat
  /\ edit_fails 42 w 1001 NotFound.
Proof.
  intros w. split; [reflexivity |].
  apply (proj2 (proj2 (proj2 (proj2 (proj2
           (@update_stats_call_budget 42 w (Some 1001%Z))))))); reflexivity.
Defined.

End PublisherMoreRuns.

Section UptimeMoreRuns.
Import Uptime Shape.

Lemma get_server_uptime_uptime_line_witness :
  get_server_uptime
    (host (py "Linux")
       (Completed (py "OS: Linux" ++ [NEWLINE]
                   ++ py "Uptime: 2 hours, 5 mins" ++ [NEWLINE]
                   ++ py "Shell: bash"))
       (Raises FileNotFoundError) (Raises FileNotFoundError))
  = ([Run NEOFETCH], Return (py "2 hours, 5 mins")).
Proof.
  apply (@get_server_uptime_uptime_line _ (py "OS: Linux" ++ [NEWLINE])
           (py "2 hours, 5 mins") ([NEWLINE] ++ py "Shell: bash"));
    reflexivity.
Defined.

Lemma get_server_uptime_up_duration_witness :
  get_server_uptime
    (host (py "Linux") (Completed (py "10:00 up 4 days, 2 users"))
       (Raises FileNotFoundError) (Raises FileNotFoundError))
  = ([Run NEOFETCH], Return (py "4 days")).
Proof.
  apply (@get_server_uptime_up_duration _ (py "10:00 ") (py "4 days")
           COMMA (py " 2 users")); try reflexivity.
  left. reflexivity.
Defined.

Lemma get_server_uptime_darwin_witness :
  snd (get_server_uptime
         (host (py "Darwin") (Raises FileNotFoundError)
            (Raises FileNotFoundError)
            (Completed (py "10:00  up 2 days, 3:04, 2 users" ++ [NEWLINE]))))
  = Return (py "2 days").
Proof.
  apply (@get_server_uptime_darwin _ FileNotFoundError (py "10:00  ")
           (py "2 days") (py " 3:04, 2 users" ++ [NEWLINE])); reflexivity.
Defined.

Lemma get_server_uptime_linux_witness :
  snd (get_server_uptime
         (host (py "Linux") (Raises FileNotFoundError)
            (Completed (py "up 2 hours, 5 minutes" ++ [NEWLINE]))
            (Raises FileNotFoundError)))
  = Return (py "2 hours, 5 minutes").
Proof.
  apply (@get_server_uptime_linux _ FileNotFoundError
           (py "2 hours, 5 minutes")); try reflexivity.
  discriminate.
Defined.

Lemma get_server_uptime_result_shape_witness :
  single_line (py "2 hours, 5 mins") = true
  /\ trimmed (py "2 hours, 5 mins") = true.
Proof.
  apply (@get_server_uptime_result_shape
           (host (py "Linux")
              (Completed (py "Uptime:   2 hours, 5 mins  " ++ [NEWLINE]))
              (Raises FileNotFoundError) (Raises FileNotFoundError))).
  - right. eexists. reflexivity.
  - reflexivity.
Defined.

End UptimeMoreRuns.

Section ProgressBarMoreRuns.
Import ProgressBar.
Open Scope Q_scope.

Lemma create_progress_bar_binary64_exact_witness :
  create_progress_bar (one_decimal 453) DEFAULT_LENGTH
  = Ok (create_progress_bar_exact (inject_Z 453 / 10) DEFAULT_LENGTH).
Proof.
  apply (@create_progress_bar_binary64_exact 453). lia.
Defined.

End ProgressBarMoreRuns.

Section TemperatureRuns.
Import Formatter Temperatures Shape.

Lemma temperature_fields_iff_witness :
  exists text,
    temperature_fields
      (Some [(py "coretemp", [{| label := py "Core 0"; current := py "45.0" |}]);
             (py "acpitz", [])])
    = [{| name := "Temperatures"; value := text; inline := true |}]
    /\ text <> [].
Proof.
  destruct (proj2 (temperature_fields_iff
                     (Some [(py "coretemp",
                             [{| label := py "Core 0"; current := py "45.0" |}]);
                            (py "acpitz", [])])) _ eq_refl)
    as (text & H1 & _ & H2 & _).
  - discriminate.
  - exists text. split; assumption.
Defined.

End TemperatureRuns.

Section ComposeRuns.
Import Publisher Compose.

(** The primary tool may not be executed: the run makes no call. *)
Lemma update_stats_silent_iff_resolver_raises_witness :
  let h := Uptime.host (PyStr.py "Linux") (Uptime.Raises Uptime.PermissionError)
             (Uptime.Completed (PyStr.py "up 2 hours"))
             (Uptime.Raises Uptime.FileNotFoundError) in
  let w := world (Some sample_channel) (stats_embed_of h (fun _ => []))
                 (Ok tt) (Ok tt) (Ok {| id := 1002 |}) in
  events (update_stats 42 w None) = []
  /\ how (update_stats 42 w None) = Raised OtherError.
Proof.
  intros h w.
  destruct (@update_stats_silent_iff_resolver_raises 42 w None h (fun _ => [])
              sample_channel ltac:(discriminate) eq_refl eq_refl)
    as [Hiff Hthen].
  assert (He : events (update_stats 42 w None) = []).
  { apply Hiff. exists Uptime.PermissionError. split; reflexivity. }
  split; [exact He | apply Hthen, He].
Defined.

End ComposeRuns.
